(** * Geometry generation pipeline of the corrugated-sphere WebGL viewer

    A shallow embedding of [CreateSurfaceData] and its helpers
    ([deg2rad], [computeFaceNormalAndArea], [computeFaceTangent],
    [paramToUV], [paramTo3D]) and the properties the specification states
    about them.

    Conventions.
    - A JavaScript Number that is used as a count or an array index is a
      [Z]; [parseInt] of a slider yields an integer (NaN is outside the
      model).
    - A JavaScript Number that carries a coordinate or an angle is an
      element of an abstract type [num] with the operations the source
      uses (class [Number]).  Everything structural is proved for every
      such interpretation; the statements about concrete coordinates are
      proved for the exact interpretation over the real numbers
      ([RNumber]), in which a [Float32Array] store rounds nothing, and,
      where the values the program computes differ from the exact ones,
      for the binary64 interpretation ([Binary64]), by evaluation.
    - An array is a [list]; reading outside it gives [None].  A
      computation that would read [undefined] and feed it to [m4] (a
      TypeError) or to arithmetic (a NaN) is [None] in the option monad. *)

From Stdlib Require Import PrimFloat FloatOps SpecFloat.
From Stdlib Require Import ZArith QArith List Lia Reals Lra.
From Stdlib Require String Ascii.
Import ListNotations.

Set Implicit Arguments.

(** ** Numbers *)

Class Number (num : Type) : Type := {
  ofZ : Z -> num;                 (* an integer literal or a loop index *)
  lit : Q -> num;                 (* a decimal literal *)
  Math_PI : num;
  add : num -> num -> num;
  sub : num -> num -> num;
  mul : num -> num -> num;
  div : num -> num -> num;
  ltb : num -> num -> bool;
  Math_abs : num -> num;
  Math_cos : num -> num;
  Math_sin : num -> num;
  Math_sqrt : num -> num;
  fround : num -> num             (* the value a Float32Array keeps *)
}.

Declare Scope num_scope.
Delimit Scope num_scope with num.
Infix "+" := add : num_scope.
Infix "-" := sub : num_scope.
Infix "*" := mul : num_scope.
Infix "/" := div : num_scope.
Infix "<?" := ltb : num_scope.

(** The exact interpretation: real arithmetic, no rounding. *)
Definition Rltb (x y : R) : bool := if Rlt_dec x y then true else false.

#[export] Instance RNumber : Number R := {|
  ofZ := IZR;
  lit := Q2R;
  Math_PI := PI;
  add := Rplus;
  sub := Rminus;
  mul := Rmult;
  div := Rdiv;
  ltb := Rltb;
  Math_abs := Rabs;
  Math_cos := cos;
  Math_sin := sin;
  Math_sqrt := sqrt;
  fround := fun x => x
|}.

(** ** The binary64 interpretation

    The arithmetic the programs run on: a Number is an IEEE 754 binary64
    ([float], the kernel's primitive type, rounding to nearest, ties to
    even) and a [Float32Array] keeps the nearest binary32. *)

(** An integer denotes the nearest binary64 (itself below 2^53). *)
Definition ofZ64 (z : Z) : float := SF2Prim (binary_normalize prec emax z 0 false).

(** A decimal literal denotes the nearest binary64.  The quotient carries
    1100 fractional bits and a sticky bit, enough for the rounding of every
    binary64, subnormals included. *)
Definition lit64 (q : Q) : float :=
  let n := Z.abs (Qnum q) in
  let d := Zpos (Qden q) in
  let a := Z.shiftl n 1100 in
  let m := (2 * (a / d) + (if (a mod d =? 0)%Z then 0 else 1))%Z in
  let r := SF2Prim (binary_normalize prec emax m (- 1101) false) in
  if (Qnum q <? 0)%Z then PrimFloat.opp r else r.

(** [Math.PI]: the binary64 nearest to pi, 3.141592653589793. *)
Definition Math_PI64 : float := 0x1.921fb54442d18p+1%float.

(** [Math.fround], the conversion of a [Float32Array] store: the nearest
    binary32 (24 bits of precision, exponents up to 128), infinite past its
    range; zeros, infinities and NaN are kept. *)
Definition fround64 (x : float) : float :=
  match Prim2SF x with
  | S754_finite s m e => SF2Prim (binary_round 24 128 s m e)
  | _ => x
  end.

(** [Math.cos] and [Math.sin] belong to the host, and ECMAScript asks of
    them only an approximation of the real function.  They are modelled as
    the function of the real number the argument stands for, rounded to the
    nearest binary64: the argument is taken exactly as a fixed-point number
    with [P] fractional bits, reduced by multiples of pi/2 (pi from Machin's
    formula, [pi/4 = 4 atan(1/5) - atan(1/239)]) and summed by the Taylor
    series, all on integers; [P] is 192 plus the binary exponent of the
    argument, which leaves more than a hundred correct bits after the
    cancellation of the reduction.  Below 2^-27 the nearest binary64 of
    [sin x] is [x] and that of [cos x] is 1. *)
Section FixedPoint.

Variable P : Z.

Fixpoint atan_inv_terms (fuel : nat) (q2 k pow : Z) (minus : bool) (acc : Z) : Z :=
  match fuel with
  | O => acc
  | S f =>
      let t := (pow / (2 * k + 1))%Z in
      atan_inv_terms f q2 (k + 1)%Z (pow / q2)%Z (negb minus)
        (if minus then acc - t else acc + t)%Z
  end.

(** [atan (1/q)], from its power series. *)
Definition atan_inv (q : Z) : Z :=
  atan_inv_terms (Z.to_nat P) (q * q)%Z 0%Z (Z.shiftl 1 P / q)%Z false 0%Z.

Definition pi_fixed : Z := (4 * (4 * atan_inv 5 - atan_inv 239))%Z.

Fixpoint taylor (fuel : nat) (r2 n term acc : Z) : Z :=
  match fuel with
  | O => acc
  | S f =>
      let term' := (- (Z.shiftr (term * r2) P / ((n + 1) * (n + 2))))%Z in
      taylor f r2 (n + 2)%Z term' (acc + term')%Z
  end.

Definition sin_fixed (r : Z) : Z :=
  taylor (Z.to_nat P) (Z.shiftr (r * r) P) 1%Z r r.

Definition cos_fixed (r : Z) : Z :=
  taylor (Z.to_nat P) (Z.shiftr (r * r) P) 0%Z (Z.shiftl 1 P) (Z.shiftl 1 P).

(** [x = k * pi/2 + r] with [|r| <= pi/4]; the quadrant [k mod 4] and [r]. *)
Definition reduce (x : Z) : Z * Z :=
  let h := (pi_fixed / 2)%Z in
  let k := ((2 * x + h) / (2 * h))%Z in
  ((k mod 4)%Z, (x - k * h)%Z).

Definition sincos_fixed (cosine : bool) (x : Z) : Z :=
  let '(k, r) := reduce x in
  let k := if cosine then ((k + 1) mod 4)%Z else k in
  if (k =? 0)%Z then sin_fixed r
  else if (k =? 1)%Z then cos_fixed r
  else if (k =? 2)%Z then (- sin_fixed r)%Z
  else (- cos_fixed r)%Z.

End FixedPoint.

Definition sincos64 (cosine : bool) (x : float) : float :=
  match Prim2SF x with
  | S754_zero _ => if cosine then 1%float else x
  | S754_finite s m e =>
      if PrimFloat.ltb (PrimFloat.abs x) 0x1p-27%float
      then (if cosine then 1%float else x)
      else
        let P := (192 + Z.max 0 (e + 53))%Z in
        let X := Z.shiftl (if s then Zneg m else Zpos m) (e + P) in
        SF2Prim (binary_normalize prec emax (sincos_fixed P cosine X) (- P) false)
  | _ => nan
  end.

Definition Math_cos64 (x : float) : float := sincos64 true x.
Definition Math_sin64 (x : float) : float := sincos64 false x.

(** Binary64 arithmetic around whatever cosine and sine the host provides,
    and with the two functions above. *)
Definition Binary64With (host_cos host_sin : float -> float) : Number float := {|
  ofZ := ofZ64;
  lit := lit64;
  Math_PI := Math_PI64;
  add := PrimFloat.add;
  sub := PrimFloat.sub;
  mul := PrimFloat.mul;
  div := PrimFloat.div;
  ltb := PrimFloat.ltb;
  Math_abs := PrimFloat.abs;
  Math_cos := host_cos;
  Math_sin := host_sin;
  Math_sqrt := PrimFloat.sqrt;
  fround := fround64
|}.

Definition Binary64 : Number float := Binary64With Math_cos64 Math_sin64.

(** ** Arrays and the option monad *)

Notation "x <- e ;; k" :=
  (match e with Some x => k | None => None end)
  (at level 61, e at next level, right associativity).
Notation "' p <- e ;; k" :=
  (match e with Some p => k | None => None end)
  (at level 61, p pattern, e at next level, right associativity).

(** [arr[i]]: [None] stands for [undefined]. *)
Definition get {A : Type} (arr : list A) (i : Z) : option A :=
  if (i <? 0)%Z then None else nth_error arr (Z.to_nat i).

(** [arr[i] = x] for an index inside the array (a typed array ignores a
    write outside it; the plain arrays of the source are only written
    where they were just read). *)
Fixpoint store {A : Type} (arr : list A) (i : nat) (x : A) : list A :=
  match arr, i with
  | [], _ => []
  | _ :: t, O => x :: t
  | h :: t, S j => h :: store t j x
  end.

Definition set {A : Type} (arr : list A) (i : Z) (x : A) : list A :=
  if (i <? 0)%Z then arr else store arr (Z.to_nat i) x.

(** [arr.push(x1, ..., xn)] *)
Definition push {A : Type} (arr : list A) (xs : list A) : list A := arr ++ xs.

(** [Array.from({ length: len }, (_, i) => f i)]; a length below 1 gives
    the empty array. *)
Definition Array_from {A : Type} (len : Z) (f : Z -> A) : list A :=
  map (fun k => f (Z.of_nat k)) (seq 0 (Z.to_nat len)).

(** The values [i] takes in [for (let i = 0; i < n; i++)]. *)
Definition upto (n : Z) : list Z := map Z.of_nat (seq 0 (Z.to_nat n)).

(** [arr.forEach((x, i) => ...)] threading the state the callback mutates. *)
Fixpoint forEach_from {A S : Type} (f : S -> A -> Z -> S) (arr : list A)
    (i : Z) (s : S) : S :=
  match arr with
  | [] => s
  | x :: t => forEach_from f t (i + 1)%Z (f s x i)
  end.

Definition forEach {A S : Type} (f : S -> A -> Z -> S) (arr : list A) (s : S) : S :=
  forEach_from f arr 0%Z s.

(** [new Uint16Array(arr)]: every element is reduced modulo 2^16. *)
Definition Uint16Array (arr : list Z) : list Z :=
  map (fun k => (k mod 65536)%Z) arr.

(** A point or a vector is the array [[x, y, z]]; a texture coordinate the
    array [[u, v]]. *)
Abbreviation vec3 num := (num * num * num)%type (only parsing).
Abbreviation vec2 num := (num * num)%type (only parsing).

Section Pipeline.

Context {num : Type} {NUM : Number num}.

Local Open Scope num_scope.

(** ** The m4 vector helpers *)

(** Modelled from the spec: the m4 library (webgl-3d-math) is loaded by the
    page and is not part of the sources; the operations are the ones the
    specification names in its formulas (difference, sum, scaling, cross
    product, Euclidean norm, division by the norm). *)
Definition m4_subtractVectors (a b : vec3 num) : vec3 num :=
  let '(a0, a1, a2) := a in let '(b0, b1, b2) := b in
  (a0 - b0, a1 - b1, a2 - b2).

Definition m4_addVectors (a b : vec3 num) : vec3 num :=
  let '(a0, a1, a2) := a in let '(b0, b1, b2) := b in
  (a0 + b0, a1 + b1, a2 + b2).

Definition m4_scaleVector (v : vec3 num) (s : num) : vec3 num :=
  let '(v0, v1, v2) := v in (v0 * s, v1 * s, v2 * s).

Definition m4_cross (a b : vec3 num) : vec3 num :=
  let '(a0, a1, a2) := a in let '(b0, b1, b2) := b in
  (a1 * b2 - a2 * b1, a2 * b0 - a0 * b2, a0 * b1 - a1 * b0).

Definition m4_length (v : vec3 num) : num :=
  let '(v0, v1, v2) := v in Math_sqrt (v0 * v0 + v1 * v1 + v2 * v2).

Definition m4_normalize (v : vec3 num) : vec3 num :=
  let '(v0, v1, v2) := v in
  let length := m4_length v in
  (v0 / length, v1 / length, v2 / length).

(** ** Helpers of the sources *)

Definition deg2rad (angle : num) : num :=
  angle * Math_PI / lit 180.0.

Record FlatVertex : Type := mkFlatVertex {
  fv_x : num; fv_y : num; fv_z : num;
  fv_nx : num; fv_ny : num; fv_nz : num;
  fv_tx : num; fv_ty : num; fv_tz : num;
  fv_u : num; fv_v : num
}.

Definition computeFaceNormalAndArea (p0 p1 p2 : vec3 num) : vec3 num * num :=
  let u := m4_subtractVectors p1 p0 in
  let v := m4_subtractVectors p2 p0 in
  let cross := m4_cross u v in
  let area := m4_length cross * lit 0.5 in
  if area <? lit 1e-14 then ((ofZ 0, ofZ 0, ofZ 1), ofZ 0)
  else (m4_normalize cross, area).

Definition computeFaceTangent (p0 p1 p2 : vec3 num) (uv0 uv1 uv2 : vec2 num) : vec3 num :=
  let edge1 := m4_subtractVectors p1 p0 in
  let edge2 := m4_subtractVectors p2 p0 in
  let deltaUV1 := (fst uv1 - fst uv0, snd uv1 - snd uv0) in
  let deltaUV2 := (fst uv2 - fst uv0, snd uv2 - snd uv0) in
  let f := fst deltaUV1 * snd deltaUV2 - snd deltaUV1 * fst deltaUV2 in
  if Math_abs f <? lit 1e-14 then (lit 1.0, lit 0.0, lit 0.0)
  else
    let f := lit 1.0 / f in
    let '(e10, e11, e12) := edge1 in
    let '(e20, e21, e22) := edge2 in
    let tx := f * (e10 * snd deltaUV2 - e20 * snd deltaUV1) in
    let ty := f * (e11 * snd deltaUV2 - e21 * snd deltaUV1) in
    let tz := f * (e12 * snd deltaUV2 - e22 * snd deltaUV1) in
    (tx, ty, tz).

(** [paramTo3D] of the marker code. *)
Definition paramTo3D (u v : num) : vec3 num :=
  let R := lit 1.0 in
  let a := lit 0.24 in
  let n := ofZ 6 in
  let radial := R * Math_cos v + a * (ofZ 1 - Math_sin v) * Math_abs (Math_cos (n * u)) in
  let x := radial * Math_cos u in
  let y := radial * Math_sin u in
  let z := R * Math_sin v in
  (x, y, z).

(** ** CreateSurfaceData, step by step *)

Definition stepV (vCount : Z) : num := (ofZ 90 - ofZ (-90)) / ofZ vCount.
Definition stepU (uCount : Z) : num := (ofZ 360 - ofZ 0) / ofZ uCount.

Definition vAngles (vCount : Z) : list num :=
  Array_from (vCount + 1) (fun i => deg2rad (ofZ (-90) + ofZ i * stepV vCount)).

Definition uAngles (uCount : Z) : list num :=
  Array_from (uCount + 1) (fun j => deg2rad (ofZ 0 + ofZ j * stepU uCount)).

(** The body of the inner arrow function that fills [vertexGrid]
    (the variant with tangents and texture coordinates). *)
Definition gridVertex (vRad uRad : num) : vec3 num :=
  let R := lit 1.0 in
  let a := lit 0.24 in
  let n := ofZ 6 in
  let radial := R * Math_cos vRad + a * (ofZ 1 - Math_sin vRad) * Math_abs (Math_cos (n * uRad)) in
  let x := radial * Math_cos uRad in
  let y := radial * Math_sin uRad in
  let z := R * Math_sin vRad in
  (x, y, z).

(** The same arrow function in the textured variant that also draws the
    marker, where the three constants share one [let]. *)
Definition gridVertex_marker (vRad uRad : num) : vec3 num :=
  let '(R, a, n) := (lit 1.0, lit 0.24, ofZ 6) in
  let radial := R * Math_cos vRad + a * (ofZ 1 - Math_sin vRad) * Math_abs (Math_cos (n * uRad)) in
  let x := radial * Math_cos uRad in
  let y := radial * Math_sin uRad in
  let z := R * Math_sin vRad in
  (x, y, z).

Definition vertexGrid (uCount vCount : Z) : list (list (vec3 num)) :=
  map (fun vRad => map (fun uRad => gridVertex vRad uRad) (uAngles uCount))
      (vAngles vCount).

(** [vertexGrid.flat()] *)
Definition flat (grid : list (list (vec3 num))) : list (vec3 num) := concat grid.

Definition indexOf (uCount : Z) (iv iu : Z) : Z := (iv * (uCount + 1) + iu)%Z.

Definition triangle : Type := (Z * Z * Z)%type.

Definition facesCell (uCount : Z) (iv : Z) (faces : list triangle) (iu : Z)
    : list triangle :=
  let i0 := indexOf uCount iv iu in
  let i1 := indexOf uCount iv (iu + 1) in
  let i2 := indexOf uCount (iv + 1) iu in
  let i3 := indexOf uCount (iv + 1) (iu + 1) in
  push faces [(i0, i2, i1); (i1, i2, i3)].

Definition facesRow (uCount : Z) (faces : list triangle) (iv : Z) : list triangle :=
  fold_left (facesCell uCount iv) (upto uCount) faces.

Definition faces (uCount vCount : Z) : list triangle :=
  fold_left (facesRow uCount) (upto vCount) [].

(** Weighted-average vertex normals. *)
Definition accumCorner (normal : vec3 num) (area : num)
    (accum : option (list (vec3 num))) (idx : Z) : option (list (vec3 num)) :=
  accumNormals <- accum ;;
  old <- get accumNormals idx ;;
  let scaled := m4_scaleVector normal area in
  Some (set accumNormals idx (m4_addVectors old scaled)).

Definition accumFace (vertices : list (vec3 num))
    (accum : option (list (vec3 num))) (face : triangle) : option (list (vec3 num)) :=
  accumNormals <- accum ;;
  let '(iA, iB, iC) := face in
  pA <- get vertices iA ;;
  pB <- get vertices iB ;;
  pC <- get vertices iC ;;
  let '(normal, area) := computeFaceNormalAndArea pA pB pC in
  fold_left (accumCorner normal area) [iA; iB; iC] (Some accumNormals).

Definition accumNormals (vertices : list (vec3 num)) (fs : list triangle)
    : option (list (vec3 num)) :=
  fold_left (accumFace vertices) fs
    (Some (map (fun _ => (ofZ 0, ofZ 0, ofZ 0)) vertices)).

Definition normalizedNormals (vertices : list (vec3 num)) (fs : list triangle)
    : option (list (vec3 num)) :=
  accum <- accumNormals vertices fs ;;
  Some (map (fun nrm => m4_normalize nrm) accum).

Definition paramToUV (vAngles uAngles : list num) (iv iu : Z) : option (vec2 num) :=
  vRad <- get vAngles iv ;;
  uRad <- get uAngles iu ;;
  let uCoord := uRad / (lit 2.0 * Math_PI) in
  let vCoord := (vRad + Math_PI * lit 0.5) / Math_PI in
  Some (uCoord, vCoord).

Record FlatState : Type := mkFlatState {
  flatVertices : list FlatVertex;
  flatIndices : list Z;
  idxCounter : Z
}.

Definition flatCorner (s : FlatState) (elem : vec3 num * vec3 num * vec3 num * vec2 num) : FlatState :=
  let '(pos, nor, tan, uv) := elem in
  let '(pos0, pos1, pos2) := pos in
  let '(nor0, nor1, nor2) := nor in
  let '(tan0, tan1, tan2) := tan in
  let '(uv0, uv1) := uv in
  {| flatVertices :=
       push (flatVertices s)
         [mkFlatVertex pos0 pos1 pos2 nor0 nor1 nor2 tan0 tan1 tan2 uv0 uv1];
     flatIndices := push (flatIndices s) [idxCounter s];
     idxCounter := (idxCounter s + 1)%Z |}.

Definition flatFace (uCount : Z) (vertices normals : list (vec3 num))
    (vAng uAng : list num)
    (st : option FlatState) (face : triangle) : option FlatState :=
  s <- st ;;
  let '(iA, iB, iC) := face in
  pA <- get vertices iA ;;
  pB <- get vertices iB ;;
  pC <- get vertices iC ;;
  nA <- get normals iA ;;
  nB <- get normals iB ;;
  nC <- get normals iC ;;
  let sumABC := m4_addVectors (m4_addVectors nA nB) nC in
  let faceNormal := m4_normalize sumABC in
  let ivA := (iA / (uCount + 1))%Z in
  let iuA := Z.rem iA (uCount + 1) in
  let ivB := (iB / (uCount + 1))%Z in
  let iuB := Z.rem iB (uCount + 1) in
  let ivC := (iC / (uCount + 1))%Z in
  let iuC := Z.rem iC (uCount + 1) in
  uvA <- paramToUV vAng uAng ivA iuA ;;
  uvB <- paramToUV vAng uAng ivB iuB ;;
  uvC <- paramToUV vAng uAng ivC iuC ;;
  let faceTangent := computeFaceTangent pA pB pC uvA uvB uvC in
  let faceTangent := m4_normalize faceTangent in
  Some (fold_left flatCorner
          [(pA, faceNormal, faceTangent, uvA);
           (pB, faceNormal, faceTangent, uvB);
           (pC, faceNormal, faceTangent, uvC)] s).

Definition flatShade (uCount vCount : Z) : option FlatState :=
  let vertices := flat (vertexGrid uCount vCount) in
  let fs := faces uCount vCount in
  normals <- normalizedNormals vertices fs ;;
  fold_left (flatFace uCount vertices normals (vAngles vCount) (uAngles uCount)) fs
    (Some {| flatVertices := []; flatIndices := []; idxCounter := 0 |}).

(** Typed arrays: a new [Float32Array] holds zeros, a store keeps the
    rounded value, and the loop below never touches [indices]. *)
Definition Float32Array_new (len : Z) : list num :=
  repeat (ofZ 0) (Z.to_nat len).

Definition set32 (arr : list num) (i : Z) (x : num) : list num :=
  set arr i (fround x).

Record SurfaceBuffers : Type := mkSurfaceBuffers {
  positions : list num;
  normals : list num;
  tangents : list num;
  texcoords : list num;
  indices : list Z
}.

Definition packVertex (b : SurfaceBuffers) (fv : FlatVertex) (i : Z) : SurfaceBuffers :=
  {| positions :=
       set32 (set32 (set32 (positions b) (3 * i + 0) (fv_x fv))
                           (3 * i + 1) (fv_y fv)) (3 * i + 2) (fv_z fv);
     normals :=
       set32 (set32 (set32 (normals b) (3 * i + 0) (fv_nx fv))
                           (3 * i + 1) (fv_ny fv)) (3 * i + 2) (fv_nz fv);
     tangents :=
       set32 (set32 (set32 (tangents b) (3 * i + 0) (fv_tx fv))
                           (3 * i + 1) (fv_ty fv)) (3 * i + 2) (fv_tz fv);
     texcoords :=
       set32 (set32 (texcoords b) (2 * i + 0) (fv_u fv)) (2 * i + 1) (fv_v fv);
     indices := indices b |}.

Definition pack (s : FlatState) : SurfaceBuffers :=
  let len := Z.of_nat (length (flatVertices s)) in
  forEach packVertex (flatVertices s)
    {| positions := Float32Array_new (len * 3);
       normals := Float32Array_new (len * 3);
       tangents := Float32Array_new (len * 3);
       texcoords := Float32Array_new (len * 2);
       indices := Uint16Array (flatIndices s) |}.

(** The resolution is read from the two sliders; here it is the argument. *)
Definition CreateSurfaceData (uCount vCount : Z) : option SurfaceBuffers :=
  s <- flatShade uCount vCount ;;
  Some (pack s).

End Pipeline.

Arguments FlatVertex num : clear implicits.
Arguments FlatState num : clear implicits.
Arguments SurfaceBuffers num : clear implicits.

(** ** Auxiliary definitions used in the statements *)

(** The two triangles of one cell, in the order they are pushed. *)
Definition cellTriangles (uCount iv iu : Z) : list triangle :=
  let i0 := indexOf uCount iv iu in
  let i1 := indexOf uCount iv (iu + 1) in
  let i2 := indexOf uCount (iv + 1) iu in
  let i3 := indexOf uCount (iv + 1) (iu + 1) in
  [(i0, i2, i1); (i1, i2, i3)].

Definition rowTriangles (uCount iv : Z) : list triangle :=
  flat_map (cellTriangles uCount iv) (upto uCount).

(** The flattened indices of the lattice points of a [uCount] by [vCount]
    grid. *)
Definition onLattice (uCount vCount i : Z) : Prop :=
  exists iv iu, (0 <= iv <= vCount)%Z /\ (0 <= iu <= uCount)%Z /\
                i = indexOf uCount iv iu.

Definition triangleOnLattice (uCount vCount : Z) (t : triangle) : Prop :=
  let '(iA, iB, iC) := t in
  onLattice uCount vCount iA /\ onLattice uCount vCount iB /\
  onLattice uCount vCount iC.

Section Statements.

Context {num : Type} {NUM : Number num}.

Local Open Scope num_scope.

(** The angles stored at index [i] of [vAngles] and at index [j] of
    [uAngles] (the bodies of the two [Array.from] callbacks). *)
Definition vAngleAt (vCount i : Z) : num :=
  deg2rad (ofZ (-90) + ofZ i * stepV vCount).

Definition uAngleAt (uCount j : Z) : num :=
  deg2rad (ofZ 0 + ofZ j * stepU uCount).

(** What the flat-shading loop emits for the corner with lattice index [i]
    of a triangle whose face normal is [n] and face tangent is [t]: the
    position read from the flattened grid, the texture coordinates of the
    lattice coordinate recovered from [i], and [n] and [t] unchanged. *)
Definition flatCornerOf (uCount vCount : Z) (n t : vec3 num) (i : Z)
    (fv : FlatVertex num) : Prop :=
  get (flat (vertexGrid uCount vCount)) i = Some (fv_x fv, fv_y fv, fv_z fv) /\
  paramToUV (vAngles vCount) (uAngles uCount)
    (i / (uCount + 1))%Z (Z.rem i (uCount + 1)) = Some (fv_u fv, fv_v fv) /\
  (fv_nx fv, fv_ny fv, fv_nz fv) = n /\
  (fv_tx fv, fv_ty fv, fv_tz fv) = t.

(** The three replicated vertices of one triangle, in corner order. *)
Definition flatTriangleOf (uCount vCount : Z) (face : triangle)
    (chunk : list (FlatVertex num)) : Prop :=
  let '(iA, iB, iC) := face in
  exists fa fb fc n t,
    chunk = [fa; fb; fc] /\
    flatCornerOf uCount vCount n t iA fa /\
    flatCornerOf uCount vCount n t iB fb /\
    flatCornerOf uCount vCount n t iC fc.

(** Layout of the packed attribute arrays. *)
Definition packed3 (f g h : FlatVertex num -> num) (fvs : list (FlatVertex num)) : list num :=
  flat_map (fun fv => [fround (f fv); fround (g fv); fround (h fv)]) fvs.

Definition packed2 (f g : FlatVertex num -> num) (fvs : list (FlatVertex num)) : list num :=
  flat_map (fun fv => [fround (f fv); fround (g fv)]) fvs.

(** What one round of the packing loop does to a three-component and to a
    two-component attribute array. *)
Definition write3 (f g h : FlatVertex num -> num) (arr : list num)
    (fv : FlatVertex num) (i : Z) : list num :=
  set32 (set32 (set32 arr (3 * i + 0) (f fv)) (3 * i + 1) (g fv)) (3 * i + 2) (h fv).

Definition write2 (f g : FlatVertex num -> num) (arr : list num)
    (fv : FlatVertex num) (i : Z) : list num :=
  set32 (set32 arr (2 * i + 0) (f fv)) (2 * i + 1) (g fv).

End Statements.

(** The parametric surface as the specification writes it, over the real
    numbers, with [R = 1.0], [a = 0.24] and [n = 6]. *)
Definition surfacePoint (u v : R) : R * R * R :=
  let radial := (1.0 * cos v + 0.24 * (1 - sin v) * Rabs (cos (6 * u)))%R in
  ((radial * cos u)%R, (radial * sin u)%R, (1.0 * sin v)%R).

(** The area of a triangle as the specification writes it. *)
Definition triangleArea (p0 p1 p2 : R * R * R) : R :=
  (0.5 * m4_length (m4_cross (m4_subtractVectors p1 p0) (m4_subtractVectors p2 p0)))%R.

(** The lattice point [(iv, iu)] of the sampled grid. *)
Definition gridAt {num : Type} {NUM : Number num} (uCount vCount iv iu : Z)
    : option (vec3 num) :=
  row <- get (vertexGrid uCount vCount) iv ;; get row iu.

(** The parametric surface as the specification writes it, in the
    arithmetic of an interpretation of Number:
    [radial = R cos v + a (1 - sin v) |cos (n u)|], [x = radial cos u],
    [y = radial sin u], [z = R sin v], with [R = 1.0], [a = 0.24], [n = 6]. *)
Definition surfaceFormula {num : Type} {NUM : Number num} (u v : num) : vec3 num :=
  let R := lit 1.0 in
  let a := lit 0.24 in
  let n := ofZ 6 in
  let radial :=
    add (mul R (Math_cos v))
        (mul (mul a (sub (ofZ 1) (Math_sin v))) (Math_abs (Math_cos (mul n u)))) in
  (mul radial (Math_cos u), mul radial (Math_sin u), mul R (Math_sin v)).

(** The position of the first replicated vertex (triangle 0, corner 0), and
    the first three entries of the position array. *)
Definition firstVertex {num : Type} {NUM : Number num} (uCount vCount : Z)
    : option (vec3 num) :=
  s <- flatShade uCount vCount ;;
  fv <- get (flatVertices s) 0 ;;
  Some (fv_x fv, fv_y fv, fv_z fv).

Definition firstPosition {num : Type} {NUM : Number num} (uCount vCount : Z)
    : option (list num) :=
  b <- CreateSurfaceData uCount vCount ;;
  Some (firstn 3 (positions b)).

(** The [u] texture coordinates that [paramToUV] returns in row [iv] for the
    two seam columns, [iu = 0] and [iu = uCount]. *)
Definition seamU {num : Type} {NUM : Number num} (uCount vCount iv : Z)
    : option (num * num) :=
  uv0 <- paramToUV (vAngles vCount) (uAngles uCount) iv 0 ;;
  uv1 <- paramToUV (vAngles vCount) (uAngles uCount) iv uCount ;;
  Some (fst uv0, fst uv1).

(** ** The variant without texture coordinates

    The flat-shaded surface of the second program: the same grid, faces and
    weighted normals, a vertex record of six fields and three output
    arrays. *)
Module Shaded.

Section Pipeline.

Context {num : Type} {NUM : Number num}.

Record FlatVertex : Type := mkFlatVertex {
  fv_x : num; fv_y : num; fv_z : num;
  fv_nx : num; fv_ny : num; fv_nz : num
}.

Record FlatState : Type := mkFlatState {
  flatVertices : list FlatVertex;
  flatIndices : list Z;
  idxCounter : Z
}.

Definition flatCorner (vertexArray : list (vec3 num)) (faceNormal : vec3 num)
    (st : option FlatState) (cornerIdx : Z) : option FlatState :=
  s <- st ;;
  p <- get vertexArray cornerIdx ;;
  let '(p0, p1, p2) := p in
  let '(faceNormal0, faceNormal1, faceNormal2) := faceNormal in
  Some {| flatVertices :=
            push (flatVertices s)
              [mkFlatVertex p0 p1 p2 faceNormal0 faceNormal1 faceNormal2];
          flatIndices := push (flatIndices s) [idxCounter s];
          idxCounter := (idxCounter s + 1)%Z |}.

Definition flatFace (vertexArray normals : list (vec3 num))
    (st : option FlatState) (face : triangle) : option FlatState :=
  s <- st ;;
  let '(iA, iB, iC) := face in
  nA <- get normals iA ;;
  nB <- get normals iB ;;
  nC <- get normals iC ;;
  let sumABC := m4_addVectors (m4_addVectors nA nB) nC in
  let faceNormal := m4_normalize sumABC in
  fold_left (flatCorner vertexArray faceNormal) [iA; iB; iC] (Some s).

Definition flatShade (uCount vCount : Z) : option FlatState :=
  let vertexArray := flat (vertexGrid uCount vCount) in
  let fs := faces uCount vCount in
  normals <- normalizedNormals vertexArray fs ;;
  fold_left (flatFace vertexArray normals) fs
    (Some {| flatVertices := []; flatIndices := []; idxCounter := 0 |}).

Record SurfaceBuffers : Type := mkSurfaceBuffers {
  positions : list num;
  normals : list num;
  indices : list Z
}.

Definition packVertex (b : SurfaceBuffers) (fv : FlatVertex) (i : Z) : SurfaceBuffers :=
  {| positions :=
       set32 (set32 (set32 (positions b) (3 * i + 0) (fv_x fv))
                           (3 * i + 1) (fv_y fv)) (3 * i + 2) (fv_z fv);
     normals :=
       set32 (set32 (set32 (normals b) (3 * i + 0) (fv_nx fv))
                           (3 * i + 1) (fv_ny fv)) (3 * i + 2) (fv_nz fv);
     indices := indices b |}.

Definition pack (s : FlatState) : SurfaceBuffers :=
  let len := Z.of_nat (length (flatVertices s)) in
  forEach packVertex (flatVertices s)
    {| positions := Float32Array_new (len * 3);
       normals := Float32Array_new (len * 3);
       indices := Uint16Array (flatIndices s) |}.

Definition CreateSurfaceData (uCount vCount : Z) : option SurfaceBuffers :=
  s <- flatShade uCount vCount ;;
  Some (pack s).

End Pipeline.

Arguments FlatVertex num : clear implicits.
Arguments FlatState num : clear implicits.
Arguments SurfaceBuffers num : clear implicits.

End Shaded.

Section ShadedStatements.

Context {num : Type} {NUM : Number num}.

(** What the variant without texture coordinates keeps of a vertex and of
    the state of the replication loop. *)
Definition untextured (fv : FlatVertex num) : Shaded.FlatVertex num :=
  Shaded.mkFlatVertex (fv_x fv) (fv_y fv) (fv_z fv) (fv_nx fv) (fv_ny fv) (fv_nz fv).

Definition untexturedState (s : FlatState num) : Shaded.FlatState num :=
  {| Shaded.flatVertices := map untextured (flatVertices s);
     Shaded.flatIndices := flatIndices s;
     Shaded.idxCounter := idxCounter s |}.

End ShadedStatements.

(** ** The marker

    The small sphere that the third program draws on the surface, the
    texture coordinate of its position and the keys that move it. *)
Module Marker.

Section Code.

Context {num : Type} {NUM : Number num}.

Local Open Scope num_scope.

Definition paramToTexCoord (u v : num) : vec2 num :=
  let texU := u / (lit 2.0 * Math_PI) in
  let texV := (v + (Math_PI / ofZ 2)) / Math_PI in
  (texU, texV).

Definition sphericalPoint (center : vec3 num) (r theta phi : num) : vec3 num :=
  let '(center0, center1, center2) := center in
  let sinTheta := Math_sin theta in
  let cosTheta := Math_cos theta in
  let sinPhi := Math_sin phi in
  let cosPhi := Math_cos phi in
  let x := r * sinTheta * cosPhi + center0 in
  let y := r * cosTheta + center1 in
  let z := r * sinTheta * sinPhi + center2 in
  (x, y, z).

(** One round of the inner loop of [generateSphere]: the quad between
    [theta1], [theta2] and the two longitudes of column [j]. *)
Definition generateSphere_quad (center : vec3 num) (radius theta1 theta2 : num)
    (vertices : list num) (j : Z) : list num :=
  let v := 20%Z in
  let phi1 := (ofZ j * lit 2.0 * Math_PI) / ofZ v in
  let phi2 := (ofZ (j + 1) * lit 2.0 * Math_PI) / ofZ v in
  let '(p1_0, p1_1, p1_2) := sphericalPoint center radius theta1 phi1 in
  let '(p2_0, p2_1, p2_2) := sphericalPoint center radius theta1 phi2 in
  let '(p3_0, p3_1, p3_2) := sphericalPoint center radius theta2 phi1 in
  let '(p4_0, p4_1, p4_2) := sphericalPoint center radius theta2 phi2 in
  let vertices :=
    push vertices [p1_0; p1_1; p1_2; p2_0; p2_1; p2_2; p3_0; p3_1; p3_2] in
  push vertices [p2_0; p2_1; p2_2; p4_0; p4_1; p4_2; p3_0; p3_1; p3_2].

(** One round of the outer loop. *)
Definition generateSphere_band (center : vec3 num) (radius : num)
    (vertices : list num) (i : Z) : list num :=
  let u := 20%Z in
  let v := 20%Z in
  let theta1 := (ofZ i * Math_PI) / ofZ u in
  let theta2 := (ofZ (i + 1) * Math_PI) / ofZ u in
  fold_left (generateSphere_quad center radius theta1 theta2) (upto v) vertices.

(** [new Float32Array(arr)] *)
Definition Float32Array_from (arr : list num) : list num := map fround arr.

Definition generateSphere (center : vec3 num) (radius : num) : list num :=
  let u := 20%Z in
  let vertices := fold_left (generateSphere_band center radius) (upto u) [] in
  Float32Array_from vertices.

(** [PointModel.BufferData] keeps the number of vertices for the draw call. *)
Definition PointModel_count (positionArray : list num) : Q :=
  inject_Z (Z.of_nat (length positionArray)) / 3.

End Code.

(** The position of the marker on the surface, in exact arithmetic. *)
Record MarkerState : Type := mkMarkerState {
  paramU : R;
  paramV : R
}.

(** The state the program starts in. *)
Definition initialState : MarkerState :=
  {| paramU := PI; paramV := 0.0%R |}.

Import Stdlib.Strings.String.

(** [String.prototype.toLowerCase] on the letters A to Z; no other
    character has a, d, w or s as its lower case. *)
Definition toLowerCase_ascii (c : Ascii.ascii) : Ascii.ascii :=
  let n := Ascii.nat_of_ascii c in
  if ((65 <=? n) && (n <=? 90))%nat then Ascii.ascii_of_nat (n + 32) else c.

Fixpoint toLowerCase (s : String.string) : String.string :=
  match s with
  | String.EmptyString => String.EmptyString
  | String.String c t => String.String (toLowerCase_ascii c) (toLowerCase t)
  end.

(** The [keydown] handler; [key] is [event.key]. *)
Definition keydown (s : MarkerState) (key : String.string) : MarkerState :=
  let step := 0.05%R in
  let k := toLowerCase key in
  if String.eqb k "a"%string then
    let paramU := (paramU s - step)%R in
    let paramU := if Rltb paramU 0 then (paramU + 2.0 * PI)%R else paramU in
    {| paramU := paramU; paramV := paramV s |}
  else if String.eqb k "d"%string then
    let paramU := (paramU s + step)%R in
    let paramU := if Rltb (2.0 * PI) paramU then (paramU - 2.0 * PI)%R else paramU in
    {| paramU := paramU; paramV := paramV s |}
  else if String.eqb k "w"%string then
    let paramV := (paramV s + step)%R in
    let paramV := if Rltb (PI / 2) paramV then (PI / 2)%R else paramV in
    {| paramU := paramU s; paramV := paramV |}
  else if String.eqb k "s"%string then
    let paramV := (paramV s - step)%R in
    let paramV := if Rltb paramV (- PI / 2) then (- PI / 2)%R else paramV in
    {| paramU := paramU s; paramV := paramV |}
  else s.

End Marker.

(** The marker stays inside the parameter rectangle of the surface. *)
Definition inParameterRange (s : Marker.MarkerState) : Prop :=
  (0 <= Marker.paramU s <= 2 * PI)%R /\
  (- (PI / 2) <= Marker.paramV s <= PI / 2)%R.

(** The corner points of the marker sphere in the order [generateSphere]
    writes them: per quad the triangles [p1 p2 p3] and [p2 p4 p3]. *)
Definition quadCorners {num : Type} {NUM : Number num}
    (center : vec3 num) (radius theta1 theta2 : num) (j : Z) : list (vec3 num) :=
  let phi1 := div (mul (mul (ofZ j) (lit 2.0)) Math_PI) (ofZ 20) in
  let phi2 := div (mul (mul (ofZ (j + 1)) (lit 2.0)) Math_PI) (ofZ 20) in
  let p1 := Marker.sphericalPoint center radius theta1 phi1 in
  let p2 := Marker.sphericalPoint center radius theta1 phi2 in
  let p3 := Marker.sphericalPoint center radius theta2 phi1 in
  let p4 := Marker.sphericalPoint center radius theta2 phi2 in
  [p1; p2; p3; p2; p4; p3].

Definition bandCorners {num : Type} {NUM : Number num}
    (center : vec3 num) (radius : num) (i : Z) : list (vec3 num) :=
  let theta1 := div (mul (ofZ i) Math_PI) (ofZ 20) in
  let theta2 := div (mul (ofZ (i + 1)) Math_PI) (ofZ 20) in
  flat_map (quadCorners center radius theta1 theta2) (upto 20).

Definition sphereCorners {num : Type} {NUM : Number num}
    (center : vec3 num) (radius : num) : list (vec3 num) :=
  flat_map (bandCorners center radius) (upto 20).

(** The numbers of a list of points, and the same as a [Float32Array]
    keeps them. *)
Definition numbersOf {num : Type} (pts : list (vec3 num)) : list num :=
  flat_map (fun p : vec3 num => let '(x, y, z) := p in [x; y; z]) pts.

Definition pointNumbers {num : Type} {NUM : Number num}
    (pts : list (vec3 num)) : list num :=
  map fround (numbersOf pts).

(** The points at distance [radius] from [center]. *)
Definition onSphere (center : R * R * R) (radius : R) (p : R * R * R) : Prop :=
  let '(cx, cy, cz) := center in
  let '(x, y, z) := p in
  ((x - cx) * (x - cx) + (y - cy) * (y - cy) + (z - cz) * (z - cz)
   = radius * radius)%R.

(** ** The wireframe program

    The first program draws the same surface as two families of polylines,
    one along [u] for every sampled [v] and one along [v] for every sampled
    [u], uploaded into a single vertex buffer. *)
Module Wireframe.

Section Code.

Context {num : Type} {NUM : Number num}.

Local Open Scope num_scope.

Definition deg2rad (angle : num) : num :=
  angle * Math_PI / ofZ 180.

Record WireframeModel : Type := mkWireframeModel {
  uPolylines : list (list num);
  vPolylines : list (list num)
}.

Definition vVerticesArr (vVerticesNumber : Z) : list num :=
  let maxV := 90%Z in
  let minV := (-90)%Z in
  let stepV := (ofZ maxV - ofZ minV) / ofZ vVerticesNumber in
  let vVerticesArr :=
    fold_left (fun arr i => push arr [deg2rad (ofZ minV + ofZ i * stepV)])
      (upto vVerticesNumber) [] in
  push vVerticesArr [deg2rad (ofZ maxV)].

Definition uVerticesArr (uVerticesNumber : Z) : list num :=
  let minU := 0%Z in
  let maxU := 360%Z in
  let stepU := (ofZ maxU - ofZ minU) / ofZ uVerticesNumber in
  let uVerticesArr :=
    fold_left (fun arr i => push arr [deg2rad (ofZ minU + ofZ i * stepU)])
      (upto uVerticesNumber) [] in
  push uVerticesArr [deg2rad (ofZ maxU)].

(** The three numbers pushed for one sample. *)
Definition sample (vRad uRad : num) : list num :=
  let R := ofZ 1 in
  let a := lit 0.24 in
  let n := ofZ 6 in
  let x := (R * Math_cos vRad + a * (ofZ 1 - Math_sin vRad) * Math_abs (Math_cos (n * uRad)))
           * Math_cos uRad in
  let y := (R * Math_cos vRad + a * (ofZ 1 - Math_sin vRad) * Math_abs (Math_cos (n * uRad)))
           * Math_sin uRad in
  let z := R * Math_sin vRad in
  [x; y; z].

Definition CreateSurfaceData (uVerticesNumber vVerticesNumber : Z) : WireframeModel :=
  let vArr := vVerticesArr vVerticesNumber in
  let uArr := uVerticesArr uVerticesNumber in
  let uPolylines :=
    fold_left (fun polylines vRad =>
                 let uPolyline :=
                   fold_left (fun uPolyline uRad => push uPolyline (sample vRad uRad))
                     uArr [] in
                 push polylines [uPolyline]) vArr [] in
  let vPolylines :=
    fold_left (fun polylines uRad =>
                 let vPolyline :=
                   fold_left (fun vPolyline vRad => push vPolyline (sample vRad uRad))
                     vArr [] in
                 push polylines [vPolyline]) uArr [] in
  {| uPolylines := uPolylines; vPolylines := vPolylines |}.

(** [{ start, count }]; both are quotients by 3. *)
Record Range : Type := mkRange {
  start : Q;
  count : Q
}.

Record Buffers : Type := mkBuffers {
  vertices : list num;
  uPolylineRanges : list Range;
  vPolylineRanges : list Range
}.

Definition addPolyline (st : list num * list Range) (polyline : list num)
    : list num * list Range :=
  let '(vertices, ranges) := st in
  let start := (inject_Z (Z.of_nat (length vertices)) / 3)%Q in
  let vertices := push vertices polyline in
  let count := (inject_Z (Z.of_nat (length polyline)) / 3)%Q in
  (vertices, push ranges [{| start := start; count := count |}]).

(** [Model.BufferData]; [vertices] is the array handed to the buffer. *)
Definition BufferData (wireframeModel : WireframeModel) : Buffers :=
  let vertices := [] in
  let '(vertices, uPolylineRanges) :=
    fold_left addPolyline (uPolylines wireframeModel) (vertices, []) in
  let '(vertices, vPolylineRanges) :=
    fold_left addPolyline (vPolylines wireframeModel) (vertices, []) in
  {| vertices := map fround vertices;
     uPolylineRanges := uPolylineRanges;
     vPolylineRanges := vPolylineRanges |}.

End Code.

Arguments WireframeModel num : clear implicits.
Arguments Buffers num : clear implicits.

End Wireframe.

(** Ranges that follow one another without gap or overlap, from [from] to
    [to]. *)
Fixpoint contiguous (from : Q) (ranges : list Wireframe.Range) (to : Q) : Prop :=
  match ranges with
  | [] => from == to
  | r :: rs =>
      Wireframe.start r == from /\
      contiguous (from + Wireframe.count r) rs to
  end.

(** The ranges [BufferData] gives to polylines appended to a buffer that
    already holds [n] numbers. *)
Fixpoint rangesFrom {num : Type} (n : nat) (polylines : list (list num))
    : list Wireframe.Range :=
  match polylines with
  | [] => []
  | p :: ps =>
      {| Wireframe.start := inject_Z (Z.of_nat n) / 3;
         Wireframe.count := inject_Z (Z.of_nat (length p)) / 3 |}
      :: rangesFrom (n + length p) ps
  end.

(** Vertex [k] of a three-component attribute array, and a vector as a
    [Float32Array] keeps it. *)
Definition get3 {num : Type} (arr : list num) (k : Z) : option (vec3 num) :=
  x <- get arr (3 * k) ;;
  y <- get arr (3 * k + 1) ;;
  z <- get arr (3 * k + 2) ;;
  Some (x, y, z).

Definition fround3 {num : Type} {NUM : Number num} (p : vec3 num) : vec3 num :=
  let '(x, y, z) := p in (fround x, fround y, fround z).

(** * Properties *)

(** ** The definitions on small inputs *)

Example indexOf_cell : indexOf 4 1 2 = 7%Z.
Proof. reflexivity. Qed.

Example upto_4 : upto 4 = [0; 1; 2; 3]%Z.
Proof. reflexivity. Qed.

Example upto_negative : upto (-3) = [].
Proof. reflexivity. Qed.

Example faces_2_1 :
  faces 2 1 = [(0, 3, 1); (1, 3, 4); (1, 4, 2); (2, 4, 5)]%Z.
Proof. reflexivity. Qed.

Example faces_1_2 :
  faces 1 2 = [(0, 2, 1); (1, 2, 3); (2, 4, 3); (3, 4, 5)]%Z.
Proof. reflexivity. Qed.

Example faces_0_3 : faces 0 3 = [].
Proof. reflexivity. Qed.

Example Uint16Array_wraps :
  Uint16Array [65535; 65536; 65537]%Z = [65535; 0; 1]%Z.
Proof. reflexivity. Qed.

Example store_inside : store [1; 2; 3]%Z 1 9%Z = [1; 9; 3]%Z.
Proof. reflexivity. Qed.

Example store_outside : store [1; 2; 3]%Z 5 9%Z = [1; 2; 3]%Z.
Proof. reflexivity. Qed.

Example get_outside : get [1; 2; 3]%Z 3 = None /\ get [1; 2; 3]%Z (-1) = None.
Proof. split; reflexivity. Qed.

(** ** Arrays: lookups, stores and loops *)

Section Arrays.

Variable A : Type.

Lemma get_Some (arr : list A) (i : Z) (x : A) :
  get arr i = Some x <-> (0 <= i)%Z /\ nth_error arr (Z.to_nat i) = Some x.
Proof.
  unfold get. destruct (Z.ltb_spec i 0).
  - split; [discriminate | intros [Hi _]; lia].
  - split; [intros E; split; [lia | exact E] | intros [_ E]; exact E].
Qed.

Lemma get_of_nat (arr : list A) (k : nat) :
  get arr (Z.of_nat k) = nth_error arr k.
Proof.
  unfold get. destruct (Z.ltb_spec (Z.of_nat k) 0); [lia |].
  now rewrite Nat2Z.id.
Qed.

Lemma get_in_range (arr : list A) (i : Z) :
  (0 <= i < Z.of_nat (length arr))%Z -> exists x, get arr i = Some x.
Proof.
  intros Hi. destruct (nth_error arr (Z.to_nat i)) as [x |] eqn:E.
  - exists x. apply get_Some. split; [lia | exact E].
  - apply nth_error_None in E. lia.
Qed.

Lemma get_range (arr : list A) (i : Z) (x : A) :
  get arr i = Some x -> (0 <= i < Z.of_nat (length arr))%Z.
Proof.
  intros E. apply get_Some in E. destruct E as [Hi E].
  assert (Z.to_nat i < length arr)%nat by (apply nth_error_Some; congruence).
  lia.
Qed.

Lemma length_store (arr : list A) (i : nat) (x : A) :
  length (store arr i x) = length arr.
Proof.
  revert i. induction arr as [| h t IH]; intros [| j]; simpl; auto.
Qed.

Lemma length_set (arr : list A) (i : Z) (x : A) :
  length (set arr i x) = length arr.
Proof.
  unfold set. destruct (i <? 0)%Z; [reflexivity | apply length_store].
Qed.

Lemma store_app (pre : list A) (y x : A) (rest : list A) :
  store (pre ++ y :: rest) (length pre) x = pre ++ x :: rest.
Proof.
  induction pre as [| h t IH]; simpl; [reflexivity | now rewrite IH].
Qed.

Lemma set_app (pre : list A) (y x : A) (rest : list A) (i : Z) :
  i = Z.of_nat (length pre) ->
  set (pre ++ y :: rest) i x = pre ++ x :: rest.
Proof.
  intros ->. unfold set. destruct (Z.ltb_spec (Z.of_nat (length pre)) 0); [lia |].
  rewrite Nat2Z.id. apply store_app.
Qed.

Lemma store_same (arr : list A) (i : nat) (x : A) :
  nth_error arr i = Some x -> store arr i x = arr.
Proof.
  revert i. induction arr as [| h t IH]; intros [| j] E; simpl in *;
    try discriminate.
  - now injection E as ->.
  - now rewrite IH.
Qed.

Lemma set_same (arr : list A) (i : Z) (x : A) :
  get arr i = Some x -> set arr i x = arr.
Proof.
  intros E. apply get_Some in E. destruct E as [Hi E].
  unfold set. destruct (Z.ltb_spec i 0); [lia |]. now apply store_same.
Qed.

Lemma length_Array_from (len : Z) (f : Z -> A) :
  length (Array_from len f) = Z.to_nat len.
Proof. unfold Array_from. now rewrite length_map, length_seq. Qed.

Lemma get_Array_from (len : Z) (f : Z -> A) (i : Z) :
  (0 <= i < len)%Z -> get (Array_from len f) i = Some (f i).
Proof.
  intros Hi. apply get_Some. split; [lia |].
  unfold Array_from. rewrite nth_error_map, nth_error_seq.
  destruct (Nat.ltb_spec (Z.to_nat i) (Z.to_nat len)); [| lia].
  simpl. now rewrite Z2Nat.id by lia.
Qed.

(** Pushing the elements [g x] for every [x] of a loop. *)
Lemma fold_left_push (B : Type) (g : B -> list A) (l : list B) (acc : list A) :
  fold_left (fun arr x => push arr (g x)) l acc = acc ++ flat_map g l.
Proof.
  revert acc. induction l as [| x l IH]; intros acc; simpl.
  - now rewrite app_nil_r.
  - rewrite IH. unfold push. now rewrite <- app_assoc.
Qed.

(** A concatenation of chunks of one size [k]. *)
Lemma length_flat_map_const (B : Type) (g : B -> list A) (k : nat) (l : list B) :
  (forall x, In x l -> length (g x) = k) ->
  length (flat_map g l) = (k * length l)%nat.
Proof.
  induction l as [| x l IH]; intros Hk; simpl; [lia |].
  rewrite length_app, IH, Hk; [lia | now left | intros; apply Hk; now right].
Qed.

Lemma nth_error_flat_map_const (B : Type) (g : B -> list A) (k : nat) (l : list B) :
  (forall x, In x l -> length (g x) = k) ->
  forall (i j : nat) (x : B),
    nth_error l i = Some x -> (j < k)%nat ->
    nth_error (flat_map g l) (k * i + j) = nth_error (g x) j.
Proof.
  induction l as [| y l IH]; intros Hk i j x Hi Hj.
  - destruct i; discriminate.
  - simpl. destruct i as [| i].
    + injection Hi as ->. rewrite Nat.mul_0_r. simpl.
      apply nth_error_app1. rewrite Hk; [exact Hj | now left].
    + simpl in Hi. rewrite nth_error_app2; rewrite (Hk y (or_introl eq_refl)); [| lia].
      replace (k * S i + j - k)%nat with (k * i + j)%nat by lia.
      apply IH; auto. intros z Hz. apply Hk. now right.
Qed.

End Arrays.

Lemma length_upto (n : Z) : length (upto n) = Z.to_nat n.
Proof. unfold upto. now rewrite length_map, length_seq. Qed.

Lemma In_upto (n i : Z) : In i (upto n) <-> (0 <= i < n)%Z.
Proof.
  unfold upto. rewrite in_map_iff. split.
  - intros [k [<- Hk]]. apply in_seq in Hk. lia.
  - intros Hi. exists (Z.to_nat i). split; [lia | apply in_seq; lia].
Qed.

Lemma nth_error_upto (n : Z) (k : nat) :
  (k < Z.to_nat n)%nat -> nth_error (upto n) k = Some (Z.of_nat k).
Proof.
  intros Hk. unfold upto. rewrite nth_error_map, nth_error_seq.
  destruct (Nat.ltb_spec k (Z.to_nat n)); [reflexivity | lia].
Qed.

Lemma get_upto (n i : Z) : (0 <= i < n)%Z -> get (upto n) i = Some i.
Proof.
  intros Hi. apply get_Some. split; [lia |].
  rewrite nth_error_upto by lia. f_equal. lia.
Qed.

Lemma upto_succ (n : Z) : (0 <= n)%Z -> upto (n + 1) = upto n ++ [n].
Proof.
  intros Hn. unfold upto.
  replace (Z.to_nat (n + 1)) with (Z.to_nat n + 1)%nat by lia.
  rewrite seq_app, map_app. simpl. now rewrite Z2Nat.id.
Qed.

Lemma upto_three (n : Z) :
  (0 <= n)%Z -> upto (3 + n) = [0; 1; 2]%Z ++ map (fun k => (3 + k)%Z) (upto n).
Proof.
  intros Hn. unfold upto.
  replace (Z.to_nat (3 + n)) with (3 + Z.to_nat n)%nat by lia.
  cbn [Nat.add seq map app]. do 3 f_equal.
  rewrite <- !seq_shift, !map_map. apply map_ext. intros k. lia.
Qed.

Lemma fold_left_ext (A B : Type) (f g : A -> B -> A) (l : list B) (a : A) :
  (forall a x, f a x = g a x) -> fold_left f l a = fold_left g l a.
Proof.
  intros E. revert a. induction l as [| x l IH]; intros a; simpl; [reflexivity |].
  now rewrite E, IH.
Qed.

(** ** The triangulator *)

Lemma facesRow_eq (uCount : Z) (acc : list triangle) (iv : Z) :
  facesRow uCount acc iv = push acc (rowTriangles uCount iv).
Proof.
  unfold facesRow, rowTriangles, push.
  rewrite <- fold_left_push. apply fold_left_ext. reflexivity.
Qed.

Lemma faces_eq (uCount vCount : Z) :
  faces uCount vCount = flat_map (rowTriangles uCount) (upto vCount).
Proof.
  unfold faces.
  rewrite (fold_left_ext _ (fun arr iv => push arr (rowTriangles uCount iv)))
    by apply facesRow_eq.
  now rewrite fold_left_push.
Qed.

Lemma length_rowTriangles (uCount iv : Z) :
  length (rowTriangles uCount iv) = (2 * Z.to_nat uCount)%nat.
Proof.
  unfold rowTriangles.
  rewrite (@length_flat_map_const _ _ _ 2%nat) by reflexivity.
  now rewrite length_upto.
Qed.

Lemma length_faces_nat (uCount vCount : Z) :
  length (faces uCount vCount) = (2 * Z.to_nat uCount * Z.to_nat vCount)%nat.
Proof.
  rewrite faces_eq.
  rewrite (@length_flat_map_const _ _ _ (2 * Z.to_nat uCount)%nat)
    by (intros; apply length_rowTriangles).
  now rewrite length_upto.
Qed.

Lemma length_faces (uCount vCount : Z) :
  (0 <= uCount)%Z -> (0 <= vCount)%Z ->
  Z.of_nat (length (faces uCount vCount)) = (2 * uCount * vCount)%Z.
Proof. intros Hu Hv. rewrite length_faces_nat. lia. Qed.

Lemma faces_empty (uCount vCount : Z) :
  (uCount < 1)%Z \/ (vCount < 1)%Z -> faces uCount vCount = [].
Proof.
  intros H. apply length_zero_iff_nil. rewrite length_faces_nat.
  destruct H as [H | H].
  - replace (Z.to_nat uCount) with 0%nat by lia. lia.
  - replace (Z.to_nat vCount) with 0%nat by lia. lia.
Qed.

Lemma get_faces (uCount vCount iv iu j : Z) :
  (0 <= iv < vCount)%Z -> (0 <= iu < uCount)%Z -> (0 <= j < 2)%Z ->
  get (faces uCount vCount) (2 * (iv * uCount + iu) + j)
  = get (cellTriangles uCount iv iu) j.
Proof.
  intros Hv Hu Hj.
  assert (Hpos : (0 <= 2 * (iv * uCount + iu) + j)%Z) by nia.
  unfold get at 1. destruct (Z.ltb_spec (2 * (iv * uCount + iu) + j) 0); [lia |].
  replace (Z.to_nat (2 * (iv * uCount + iu) + j))
    with (2 * Z.to_nat uCount * Z.to_nat iv + (2 * Z.to_nat iu + Z.to_nat j))%nat
    by nia.
  rewrite faces_eq.
  rewrite (@nth_error_flat_map_const _ _ (rowTriangles uCount)
             (2 * Z.to_nat uCount)%nat (upto vCount)
             (fun x _ => length_rowTriangles uCount x)
             (Z.to_nat iv) _ iv).
  - unfold rowTriangles.
    rewrite (@nth_error_flat_map_const _ _ (cellTriangles uCount iv) 2%nat
               (upto uCount) (fun _ _ => eq_refl) (Z.to_nat iu) _ iu).
    + unfold get. destruct (Z.ltb_spec j 0); [lia | reflexivity].
    + rewrite nth_error_upto by lia. f_equal. lia.
    + lia.
  - rewrite nth_error_upto by lia. f_equal. lia.
  - lia.
Qed.

(** Every triangle of the list comes from a cell of the lattice. *)
Lemma In_faces (uCount vCount : Z) (t : triangle) :
  In t (faces uCount vCount) ->
  exists iv iu, (0 <= iv < vCount)%Z /\ (0 <= iu < uCount)%Z /\
                In t (cellTriangles uCount iv iu).
Proof.
  rewrite faces_eq. intros H.
  apply in_flat_map in H. destruct H as [iv [Hiv H]].
  apply in_flat_map in H. destruct H as [iu [Hiu H]].
  exists iv, iu. rewrite In_upto in Hiv, Hiu. auto.
Qed.

(** C3.  For every cell [(iv, iu)] of a [uCount] by [vCount] lattice the
    triangle list holds, at the two places that row-major cell order gives
    the cell, the triangles [(i0, i2, i1)] and [(i1, i2, i3)], where
    [i0 = index(iv, iu)], [i1 = index(iv, iu+1)], [i2 = index(iv+1, iu)],
    [i3 = index(iv+1, iu+1)] and [index(iv, iu) = iv*(uCount+1) + iu]; the
    list has two entries per cell and nothing else. *)
Theorem triangulator_cells (uCount vCount iv iu : Z) :
  (0 <= iv < vCount)%Z -> (0 <= iu < uCount)%Z ->
  let index := fun iv iu => (iv * (uCount + 1) + iu)%Z in
  let i0 := index iv iu in
  let i1 := index iv (iu + 1)%Z in
  let i2 := index (iv + 1)%Z iu in
  let i3 := index (iv + 1)%Z (iu + 1)%Z in
  let cell := (iv * uCount + iu)%Z in
  get (faces uCount vCount) (2 * cell) = Some (i0, i2, i1) /\
  get (faces uCount vCount) (2 * cell + 1) = Some (i1, i2, i3) /\
  Z.of_nat (length (faces uCount vCount)) = (2 * (uCount * vCount))%Z.
Proof.
  intros Hv Hu. cbv zeta. repeat split.
  - replace (2 * (iv * uCount + iu))%Z with (2 * (iv * uCount + iu) + 0)%Z by lia.
    rewrite get_faces by lia. reflexivity.
  - rewrite get_faces by lia. reflexivity.
  - rewrite length_faces by lia. lia.
Qed.

Lemma triangulator_cells_witness :
  get (faces 4 2) 10 = Some (6, 11, 7)%Z /\
  get (faces 4 2) 11 = Some (7, 11, 12)%Z /\
  Z.of_nat (length (faces 4 2)) = 16%Z.
Proof.
  apply (@triangulator_cells 4 2 1 1); lia.
Defined.

(** ** The sampled grid *)

Section Grid.

Context {num : Type} {NUM : Number num}.

Lemma get_vAngles (vCount iv : Z) :
  (0 <= iv <= vCount)%Z -> get (vAngles vCount) iv = Some (vAngleAt vCount iv).
Proof. intros H. unfold vAngles. rewrite get_Array_from by lia. reflexivity. Qed.

Lemma get_uAngles (uCount iu : Z) :
  (0 <= iu <= uCount)%Z -> get (uAngles uCount) iu = Some (uAngleAt uCount iu).
Proof. intros H. unfold uAngles. rewrite get_Array_from by lia. reflexivity. Qed.

Lemma length_vAngles (vCount : Z) : length (vAngles vCount) = Z.to_nat (vCount + 1).
Proof. apply length_Array_from. Qed.

Lemma length_uAngles (uCount : Z) : length (uAngles uCount) = Z.to_nat (uCount + 1).
Proof. apply length_Array_from. Qed.

Lemma flat_vertexGrid (uCount vCount : Z) :
  flat (vertexGrid uCount vCount)
  = flat_map (fun vRad => map (fun uRad => gridVertex vRad uRad) (uAngles uCount))
      (vAngles vCount).
Proof. unfold flat, vertexGrid. now rewrite flat_map_concat_map. Qed.

Lemma length_flat_vertexGrid (uCount vCount : Z) :
  length (flat (vertexGrid uCount vCount))
  = (Z.to_nat (uCount + 1) * Z.to_nat (vCount + 1))%nat.
Proof.
  rewrite flat_vertexGrid.
  rewrite (@length_flat_map_const _ _ _ (Z.to_nat (uCount + 1))).
  - now rewrite length_vAngles.
  - intros x _. now rewrite length_map, length_uAngles.
Qed.

Lemma get_vertexGrid (uCount vCount iv iu : Z) :
  (0 <= iv <= vCount)%Z -> (0 <= iu <= uCount)%Z ->
  row <- get (vertexGrid uCount vCount) iv ;; get row iu
  = Some (gridVertex (vAngleAt vCount iv) (uAngleAt uCount iu)).
Proof.
  intros Hv Hu.
  assert (E : get (vertexGrid uCount vCount) iv
              = Some (map (fun uRad => gridVertex (vAngleAt vCount iv) uRad)
                        (uAngles uCount))).
  { apply get_Some. split; [lia |]. unfold vertexGrid. rewrite nth_error_map.
    pose proof (get_vAngles Hv) as G. apply get_Some in G. destruct G as [_ G].
    now rewrite G. }
  rewrite E. apply get_Some. split; [lia |]. rewrite nth_error_map.
  pose proof (get_uAngles Hu) as G. apply get_Some in G. destruct G as [_ G].
  now rewrite G.
Qed.

Lemma get_flat_vertexGrid (uCount vCount iv iu : Z) :
  (0 <= iv <= vCount)%Z -> (0 <= iu <= uCount)%Z ->
  get (flat (vertexGrid uCount vCount)) (indexOf uCount iv iu)
  = Some (gridVertex (vAngleAt vCount iv) (uAngleAt uCount iu)).
Proof.
  intros Hv Hu. unfold indexOf. apply get_Some. split; [nia |].
  replace (Z.to_nat (iv * (uCount + 1) + iu))
    with (Z.to_nat (uCount + 1) * Z.to_nat iv + Z.to_nat iu)%nat by nia.
  rewrite flat_vertexGrid.
  pose proof (get_vAngles Hv) as Gv. apply get_Some in Gv. destruct Gv as [_ Gv].
  pose proof (get_uAngles Hu) as Gu. apply get_Some in Gu. destruct Gu as [_ Gu].
  rewrite (@nth_error_flat_map_const _ _ _ (Z.to_nat (uCount + 1)) _
             (fun x _ => eq_trans (length_map _ _) (length_uAngles uCount))
             _ _ _ Gv) by lia.
  rewrite nth_error_map, Gu. reflexivity.
Qed.

(** Recovering the lattice coordinate from a flattened index. *)
Lemma index_div (uCount iv iu : Z) :
  (0 <= iv)%Z -> (0 <= iu <= uCount)%Z ->
  (indexOf uCount iv iu / (uCount + 1))%Z = iv.
Proof.
  intros Hv Hu. unfold indexOf. symmetry.
  apply Z.div_unique with (r := iu); lia.
Qed.

Lemma index_rem (uCount iv iu : Z) :
  (0 <= iv)%Z -> (0 <= iu <= uCount)%Z ->
  Z.rem (indexOf uCount iv iu) (uCount + 1) = iu.
Proof.
  intros Hv Hu. unfold indexOf.
  rewrite Z.rem_mod_nonneg by nia. symmetry.
  apply Z.mod_unique with (q := iv); lia.
Qed.

Lemma paramToUV_index (uCount vCount iv iu : Z) :
  (0 <= iv <= vCount)%Z -> (0 <= iu <= uCount)%Z ->
  let i := indexOf uCount iv iu in
  paramToUV (vAngles vCount) (uAngles uCount)
    (i / (uCount + 1))%Z (Z.rem i (uCount + 1))
  = Some (div (uAngleAt uCount iu) (mul (lit 2.0) Math_PI),
          div (add (vAngleAt vCount iv) (mul Math_PI (lit 0.5))) Math_PI).
Proof.
  intros Hv Hu i. subst i. rewrite index_div, index_rem by lia.
  unfold paramToUV. now rewrite get_vAngles, get_uAngles by lia.
Qed.

End Grid.

Lemma faces_onLattice (uCount vCount : Z) (t : triangle) :
  In t (faces uCount vCount) -> triangleOnLattice uCount vCount t.
Proof.
  intros H. apply In_faces in H. destruct H as [iv [iu [Hv [Hu H]]]].
  assert (L : forall a b, (0 <= a <= 1)%Z -> (0 <= b <= 1)%Z ->
            onLattice uCount vCount (indexOf uCount (iv + a) (iu + b))).
  { intros a b Ha Hb. exists (iv + a)%Z, (iu + b)%Z. repeat split; lia. }
  pose proof (L 0%Z 0%Z) as L00. pose proof (L 0%Z 1%Z) as L01.
  pose proof (L 1%Z 0%Z) as L10. pose proof (L 1%Z 1%Z) as L11.
  rewrite !Z.add_0_r in *.
  unfold cellTriangles in H. simpl in H.
  destruct H as [<- | [<- | []]]; simpl; repeat split;
    first [apply L00 | apply L01 | apply L10 | apply L11]; lia.
Qed.

(** ** Normal accumulation *)

Section Normals.

Context {num : Type} {NUM : Number num}.

Lemma onLattice_in_grid (uCount vCount i : Z) :
  onLattice uCount vCount i ->
  (0 <= i < Z.of_nat (length (flat (vertexGrid uCount vCount))))%Z.
Proof.
  intros [iv [iu [Hv [Hu ->]]]].
  exact (get_range _ _ (get_flat_vertexGrid Hv Hu)).
Qed.

Lemma accumCorner_ok (normal : vec3 num) (area : num) (acc : list (vec3 num)) (idx : Z) :
  (0 <= idx < Z.of_nat (length acc))%Z ->
  exists acc', accumCorner normal area (Some acc) idx = Some acc' /\
               length acc' = length acc.
Proof.
  intros Hi. destruct (get_in_range acc Hi) as [old E].
  unfold accumCorner. rewrite E. eexists. split; [reflexivity |].
  apply length_set.
Qed.

Lemma accumFace_ok (vertices acc : list (vec3 num)) (iA iB iC : Z) :
  length acc = length vertices ->
  (0 <= iA < Z.of_nat (length vertices))%Z ->
  (0 <= iB < Z.of_nat (length vertices))%Z ->
  (0 <= iC < Z.of_nat (length vertices))%Z ->
  exists acc', accumFace vertices (Some acc) (iA, iB, iC) = Some acc' /\
               length acc' = length acc.
Proof.
  intros L HA HB HC.
  destruct (get_in_range vertices HA) as [pA EA].
  destruct (get_in_range vertices HB) as [pB EB].
  destruct (get_in_range vertices HC) as [pC EC].
  unfold accumFace. rewrite EA, EB, EC.
  destruct (computeFaceNormalAndArea pA pB pC) as [normal area]. cbn [fold_left].
  destruct (@accumCorner_ok normal area acc iA) as [a1 [E1 L1]]; [lia |].
  rewrite E1.
  destruct (@accumCorner_ok normal area a1 iB) as [a2 [E2 L2]]; [lia |].
  rewrite E2.
  destruct (@accumCorner_ok normal area a2 iC) as [a3 [E3 L3]]; [lia |].
  exists a3. split; [exact E3 | congruence].
Qed.

Lemma accumFaces_ok (vertices : list (vec3 num)) (fs : list triangle) :
  (forall iA iB iC, In (iA, iB, iC) fs ->
     (0 <= iA < Z.of_nat (length vertices))%Z /\
     (0 <= iB < Z.of_nat (length vertices))%Z /\
     (0 <= iC < Z.of_nat (length vertices))%Z) ->
  forall acc, length acc = length vertices ->
  exists acc', fold_left (accumFace vertices) fs (Some acc) = Some acc' /\
               length acc' = length vertices.
Proof.
  induction fs as [| [[iA iB] iC] fs IH]; intros Hin acc L.
  - exists acc. split; [reflexivity | exact L].
  - destruct (Hin iA iB iC (or_introl eq_refl)) as [HA [HB HC]].
        destruct (@accumFace_ok vertices acc iA iB iC L HA HB HC) as [acc1 [E1 L1]].
    cbn [fold_left]. rewrite E1. apply IH.
    + intros a b c H. apply Hin. now right.
    + congruence.
Qed.

Lemma faces_in_grid (uCount vCount iA iB iC : Z) :
  In (iA, iB, iC) (faces uCount vCount) ->
  let n := Z.of_nat (length (flat (vertexGrid uCount vCount))) in
  (0 <= iA < n)%Z /\ (0 <= iB < n)%Z /\ (0 <= iC < n)%Z.
Proof.
  intros H. apply faces_onLattice in H. destruct H as [HA [HB HC]].
  split; [| split]; now apply onLattice_in_grid.
Qed.

Lemma normalizedNormals_ok (uCount vCount : Z) :
  exists nn,
    normalizedNormals (flat (vertexGrid uCount vCount)) (faces uCount vCount) = Some nn /\
    length nn = length (flat (vertexGrid uCount vCount)).
Proof.
  unfold normalizedNormals, accumNormals.
  match goal with
  | |- context [fold_left _ _ (Some ?init)] =>
      destruct (@accumFaces_ok (flat (vertexGrid uCount vCount))
                  (faces uCount vCount)
                  (fun a b c H => @faces_in_grid uCount vCount a b c H)
                  init (length_map _ _)) as [acc [E L]]
  end.
  rewrite E. eexists. split; [reflexivity |]. now rewrite length_map.
Qed.

End Normals.

(** ** Flat shading *)

Section FlatShading.

Context {num : Type} {NUM : Number num}.

Lemma onLattice_vertex (uCount vCount i : Z) :
  onLattice uCount vCount i ->
  exists x y z, get (flat (vertexGrid uCount vCount)) i = Some (x, y, z).
Proof.
  intros [iv [iu [Hv [Hu ->]]]].
  rewrite (get_flat_vertexGrid Hv Hu).
  destruct (gridVertex (vAngleAt vCount iv) (uAngleAt uCount iu)) as [[x y] z].
  now exists x, y, z.
Qed.

Lemma onLattice_uv (uCount vCount i : Z) :
  onLattice uCount vCount i ->
  exists u v,
    paramToUV (vAngles vCount) (uAngles uCount)
      (i / (uCount + 1))%Z (Z.rem i (uCount + 1)) = Some (u, v).
Proof.
  intros [iv [iu [Hv [Hu ->]]]].
  pose proof (paramToUV_index Hv Hu) as E. cbv zeta in E. rewrite E.
  eauto.
Qed.

Lemma flatFace_ok (uCount vCount : Z) (nn : list (vec3 num))
    (s : FlatState num) (face : triangle) :
  length nn = length (flat (vertexGrid uCount vCount)) ->
  triangleOnLattice uCount vCount face ->
  exists chunk,
    flatFace uCount (flat (vertexGrid uCount vCount)) nn
      (vAngles vCount) (uAngles uCount) (Some s) face
    = Some {| flatVertices := flatVertices s ++ chunk;
              flatIndices := flatIndices s
                             ++ [idxCounter s; idxCounter s + 1; idxCounter s + 2]%Z;
              idxCounter := (idxCounter s + 3)%Z |} /\
    flatTriangleOf uCount vCount face chunk.
Proof.
  intros L H. destruct face as [[iA iB] iC]. destruct H as [HA [HB HC]].
  destruct (onLattice_vertex HA) as [xA [yA [zA EA]]].
  destruct (onLattice_vertex HB) as [xB [yB [zB EB]]].
  destruct (onLattice_vertex HC) as [xC [yC [zC EC]]].
  destruct (onLattice_uv HA) as [uA [vA UA]].
  destruct (onLattice_uv HB) as [uB [vB UB]].
  destruct (onLattice_uv HC) as [uC [vC UC]].
  destruct (@get_in_range _ nn iA) as [nA NA];
    [rewrite L; now apply onLattice_in_grid |].
  destruct (@get_in_range _ nn iB) as [nB NB];
    [rewrite L; now apply onLattice_in_grid |].
  destruct (@get_in_range _ nn iC) as [nC NC];
    [rewrite L; now apply onLattice_in_grid |].
  unfold flatFace. rewrite EA, EB, EC, NA, NB, NC. cbv zeta.
  rewrite UA, UB, UC.
  set (n := m4_normalize (m4_addVectors (m4_addVectors nA nB) nC)).
  set (t := m4_normalize (computeFaceTangent _ _ _ _ _ _)).
  assert (En : exists n0 n1 n2, n = (n0, n1, n2))
    by (destruct n as [[n0 n1] n2]; eauto).
  assert (Et : exists t0 t1 t2, t = (t0, t1, t2))
    by (destruct t as [[t0 t1] t2]; eauto).
  destruct En as [n0 [n1 [n2 En]]]. destruct Et as [t0 [t1 [t2 Et]]].
  rewrite En, Et. clearbody n t. subst n t.
  exists [mkFlatVertex xA yA zA n0 n1 n2 t0 t1 t2 uA vA;
          mkFlatVertex xB yB zB n0 n1 n2 t0 t1 t2 uB vB;
          mkFlatVertex xC yC zC n0 n1 n2 t0 t1 t2 uC vC].
  split.
  - cbn [fold_left flatCorner flatVertices flatIndices idxCounter push].
    f_equal. f_equal.
    + now rewrite <- !app_assoc.
    + rewrite <- !app_assoc. cbn [app].
      now replace (idxCounter s + 1 + 1)%Z with (idxCounter s + 2)%Z by lia.
    + lia.
  - do 3 eexists. exists (n0, n1, n2), (t0, t1, t2).
    split; [reflexivity |]. unfold flatCornerOf. cbn [fv_x fv_y fv_z fv_nx fv_ny fv_nz fv_tx fv_ty fv_tz fv_u fv_v].
    repeat split; assumption.
Qed.

Lemma flatFaces_ok (uCount vCount : Z) (nn : list (vec3 num)) (fs : list triangle) :
  length nn = length (flat (vertexGrid uCount vCount)) ->
  (forall t, In t fs -> triangleOnLattice uCount vCount t) ->
  forall s : FlatState num,
  exists chunks,
    fold_left (flatFace uCount (flat (vertexGrid uCount vCount)) nn
                 (vAngles vCount) (uAngles uCount)) fs (Some s)
    = Some {| flatVertices := flatVertices s ++ concat chunks;
              flatIndices := flatIndices s
                             ++ map (fun k => (idxCounter s + k)%Z)
                                  (upto (3 * Z.of_nat (length fs)));
              idxCounter := (idxCounter s + 3 * Z.of_nat (length fs))%Z |} /\
    Forall2 (flatTriangleOf uCount vCount) fs chunks.
Proof.
  intros L. induction fs as [| face fs IH]; intros Hin s.
  - exists []. split; [| constructor]. cbn [fold_left concat length upto].
    destruct s as [v i c]. cbn. now rewrite !app_nil_r, Z.add_0_r.
  - destruct (@flatFace_ok uCount vCount nn s face L (Hin face (or_introl eq_refl)))
      as [chunk [E T]].
    cbn [fold_left]. rewrite E.
    destruct (IH (fun t H => Hin t (or_intror H))
                {| flatVertices := flatVertices s ++ chunk;
                   flatIndices := flatIndices s
                     ++ [idxCounter s; idxCounter s + 1; idxCounter s + 2]%Z;
                   idxCounter := (idxCounter s + 3)%Z |})
      as [chunks [E' T']].
    exists (chunk :: chunks). split; [| now constructor].
    rewrite E'. cbn [flatVertices flatIndices idxCounter concat length].
    f_equal. f_equal.
    + now rewrite <- app_assoc.
    + rewrite <- app_assoc. f_equal.
      replace (3 * Z.of_nat (S (length fs)))%Z
        with (3 + 3 * Z.of_nat (length fs))%Z by lia.
      rewrite upto_three by lia. cbn [map app]. rewrite map_map.
      rewrite Z.add_0_r. do 3 f_equal. apply map_ext. intros k. lia.
    + lia.
Qed.

End FlatShading.

(** ** Packing into typed arrays *)

Section Packing.

Context {num : Type} {NUM : Number num}.

Lemma fill3 (f g h : FlatVertex num -> num) (z : num) (l : list (FlatVertex num)) :
  forall (pre : list num) (i : Z),
    Z.of_nat (length pre) = (3 * i)%Z ->
    forEach_from (write3 f g h) l i (pre ++ repeat z (3 * length l))
    = pre ++ packed3 f g h l.
Proof.
  induction l as [| fv l IH]; intros pre i Hpre.
  - reflexivity.
  - replace (3 * length (fv :: l))%nat with (S (S (S (3 * length l)))) by (cbn [length]; lia).
    cbn [forEach_from repeat]. unfold write3 at 2, set32.
    rewrite (@set_app _ pre) by lia.
    replace (pre ++ fround (f fv) :: z :: z :: repeat z (3 * length l))
      with ((pre ++ [fround (f fv)]) ++ z :: z :: repeat z (3 * length l))
      by now rewrite <- app_assoc.
    rewrite (@set_app _ (pre ++ [fround (f fv)])) by (rewrite length_app; cbn [length]; lia).
    replace ((pre ++ [fround (f fv)]) ++ fround (g fv) :: z :: repeat z (3 * length l))
      with ((pre ++ [fround (f fv); fround (g fv)]) ++ z :: repeat z (3 * length l))
      by now rewrite <- !app_assoc.
    rewrite (@set_app _ (pre ++ [fround (f fv); fround (g fv)]))
      by (rewrite length_app; cbn [length]; lia).
    replace ((pre ++ [fround (f fv); fround (g fv)]) ++ fround (h fv) :: repeat z (3 * length l))
      with ((pre ++ [fround (f fv); fround (g fv); fround (h fv)]) ++ repeat z (3 * length l))
      by now rewrite <- !app_assoc.
    rewrite IH by (rewrite length_app; cbn [length]; lia).
    unfold packed3. cbn [flat_map]. now rewrite <- app_assoc.
Qed.

Lemma fill2 (f g : FlatVertex num -> num) (z : num) (l : list (FlatVertex num)) :
  forall (pre : list num) (i : Z),
    Z.of_nat (length pre) = (2 * i)%Z ->
    forEach_from (write2 f g) l i (pre ++ repeat z (2 * length l))
    = pre ++ packed2 f g l.
Proof.
  induction l as [| fv l IH]; intros pre i Hpre.
  - reflexivity.
  - replace (2 * length (fv :: l))%nat with (S (S (2 * length l))) by (cbn [length]; lia).
    cbn [forEach_from repeat]. unfold write2 at 2, set32.
    rewrite (@set_app _ pre) by lia.
    replace (pre ++ fround (f fv) :: z :: repeat z (2 * length l))
      with ((pre ++ [fround (f fv)]) ++ z :: repeat z (2 * length l))
      by now rewrite <- app_assoc.
    rewrite (@set_app _ (pre ++ [fround (f fv)])) by (rewrite length_app; cbn [length]; lia).
    replace ((pre ++ [fround (f fv)]) ++ fround (g fv) :: repeat z (2 * length l))
      with ((pre ++ [fround (f fv); fround (g fv)]) ++ repeat z (2 * length l))
      by now rewrite <- !app_assoc.
    rewrite IH by (rewrite length_app; cbn [length]; lia).
    unfold packed2. cbn [flat_map]. now rewrite <- app_assoc.
Qed.

Lemma fill3_new (f g h : FlatVertex num -> num) (z : num) (l : list (FlatVertex num)) :
  forEach_from (write3 f g h) l 0%Z (repeat z (3 * length l)) = packed3 f g h l.
Proof. exact (@fill3 f g h z l [] 0%Z eq_refl). Qed.

Lemma fill2_new (f g : FlatVertex num -> num) (z : num) (l : list (FlatVertex num)) :
  forEach_from (write2 f g) l 0%Z (repeat z (2 * length l)) = packed2 f g l.
Proof. exact (@fill2 f g z l [] 0%Z eq_refl). Qed.

Lemma forEach_packVertex (l : list (FlatVertex num)) :
  forall (i : Z) (b : SurfaceBuffers num),
    forEach_from packVertex l i b
    = {| positions := forEach_from (write3 (@fv_x num) (@fv_y num) (@fv_z num)) l i (positions b);
         normals := forEach_from (write3 (@fv_nx num) (@fv_ny num) (@fv_nz num)) l i (normals b);
         tangents := forEach_from (write3 (@fv_tx num) (@fv_ty num) (@fv_tz num)) l i (tangents b);
         texcoords := forEach_from (write2 (@fv_u num) (@fv_v num)) l i (texcoords b);
         indices := indices b |}.
Proof.
  induction l as [| fv l IH]; intros i b.
  - now destruct b.
  - cbn [forEach_from]. rewrite IH. reflexivity.
Qed.

Lemma pack_eq (s : FlatState num) :
  pack s
  = {| positions := packed3 (@fv_x num) (@fv_y num) (@fv_z num) (flatVertices s);
       normals := packed3 (@fv_nx num) (@fv_ny num) (@fv_nz num) (flatVertices s);
       tangents := packed3 (@fv_tx num) (@fv_ty num) (@fv_tz num) (flatVertices s);
       texcoords := packed2 (@fv_u num) (@fv_v num) (flatVertices s);
       indices := Uint16Array (flatIndices s) |}.
Proof.
  unfold pack, forEach. rewrite forEach_packVertex.
  cbn [positions normals tangents texcoords indices]. unfold Float32Array_new.
  replace (Z.to_nat (Z.of_nat (length (flatVertices s)) * 3))
    with (3 * length (flatVertices s))%nat by lia.
  replace (Z.to_nat (Z.of_nat (length (flatVertices s)) * 2))
    with (2 * length (flatVertices s))%nat by lia.
  now rewrite !fill3_new, fill2_new.
Qed.

Lemma length_packed3 (f g h : FlatVertex num -> num) (l : list (FlatVertex num)) :
  length (packed3 f g h l) = (3 * length l)%nat.
Proof. unfold packed3. now apply length_flat_map_const. Qed.

Lemma length_packed2 (f g : FlatVertex num -> num) (l : list (FlatVertex num)) :
  length (packed2 f g l) = (2 * length l)%nat.
Proof. unfold packed2. now apply length_flat_map_const. Qed.

End Packing.

(** ** The whole pipeline *)

Section Whole.

Context {num : Type} {NUM : Number num}.

Lemma length_chunks (uCount vCount : Z) (fs : list triangle)
    (chunks : list (list (FlatVertex num))) :
  Forall2 (flatTriangleOf uCount vCount) fs chunks ->
  length (concat chunks) = (3 * length fs)%nat.
Proof.
  induction 1 as [| [[iA iB] iC] chunk fs chunks H _ IH]; [reflexivity |].
  destruct H as [fa [fb [fc [n [t [-> _]]]]]].
  cbn [concat length app]. rewrite IH. lia.
Qed.

(** The flat-shading loop returns, and what it returns is laid out triangle
    by triangle. *)
Lemma flatShade_ok (uCount vCount : Z) :
  exists chunks,
    flatShade uCount vCount
    = Some {| flatVertices := concat chunks;
              flatIndices := upto (3 * Z.of_nat (length (faces uCount vCount)));
              idxCounter := (3 * Z.of_nat (length (faces uCount vCount)))%Z |} /\
    Forall2 (flatTriangleOf uCount vCount) (faces uCount vCount) chunks.
Proof.
  unfold flatShade.
  destruct (normalizedNormals_ok (num := num) uCount vCount) as [nn [E L]].
  rewrite E.
  destruct (@flatFaces_ok _ _ uCount vCount nn (faces uCount vCount) L
              (@faces_onLattice uCount vCount)
              {| flatVertices := []; flatIndices := []; idxCounter := 0 |})
    as [chunks [E' T]].
  exists chunks. split; [| exact T].
  rewrite E'. cbn [flatVertices flatIndices idxCounter app]. do 2 f_equal.
  rewrite <- (map_id (upto _)) at 2. apply map_ext. intros k. lia.
Qed.

Lemma CreateSurfaceData_ok (uCount vCount : Z) :
  exists chunks,
    CreateSurfaceData uCount vCount
    = Some {| positions := packed3 (@fv_x num) (@fv_y num) (@fv_z num) (concat chunks);
              normals := packed3 (@fv_nx num) (@fv_ny num) (@fv_nz num) (concat chunks);
              tangents := packed3 (@fv_tx num) (@fv_ty num) (@fv_tz num) (concat chunks);
              texcoords := packed2 (@fv_u num) (@fv_v num) (concat chunks);
              indices := Uint16Array
                           (upto (3 * Z.of_nat (length (faces uCount vCount)))) |} /\
    Forall2 (flatTriangleOf uCount vCount) (faces uCount vCount) chunks.
Proof.
  destruct (flatShade_ok uCount vCount) as [chunks [E T]].
  exists chunks. split; [| exact T].
  unfold CreateSurfaceData. rewrite E, pack_eq. reflexivity.
Qed.

(** C1.  For [uCount >= 1] and [vCount >= 1] the triangle list has
    [2*uCount*vCount] entries, the flat-shading loop returns
    [6*uCount*vCount] replicated vertices, and the pipeline returns buffers
    in which positions, normals and tangents each have [3*(6*uCount*vCount)]
    entries and texcoords has [2*(6*uCount*vCount)]. *)
Theorem vertex_count_invariant (uCount vCount : Z) :
  (1 <= uCount)%Z -> (1 <= vCount)%Z ->
  Z.of_nat (length (faces uCount vCount)) = (2 * uCount * vCount)%Z /\
  exists (s : FlatState num) (b : SurfaceBuffers num),
    flatShade uCount vCount = Some s /\
    Z.of_nat (length (flatVertices s)) = (6 * uCount * vCount)%Z /\
    CreateSurfaceData uCount vCount = Some b /\
    Z.of_nat (length (positions b)) = (3 * (6 * uCount * vCount))%Z /\
    Z.of_nat (length (normals b)) = (3 * (6 * uCount * vCount))%Z /\
    Z.of_nat (length (tangents b)) = (3 * (6 * uCount * vCount))%Z /\
    Z.of_nat (length (texcoords b)) = (2 * (6 * uCount * vCount))%Z.
Proof.
  intros Hu Hv.
  assert (F : Z.of_nat (length (faces uCount vCount)) = (2 * uCount * vCount)%Z)
    by (apply length_faces; lia).
  split; [exact F |].
  destruct (flatShade_ok uCount vCount) as [chunks [E T]].
  pose proof (length_chunks T) as LC.
  eexists. eexists. split; [exact E |]. cbn [flatVertices].
  split; [lia |].
  unfold CreateSurfaceData. rewrite E, pack_eq. split; [reflexivity |].
  cbn [positions normals tangents texcoords flatVertices].
  rewrite !length_packed3, length_packed2. lia.
Qed.

(** What [new Uint16Array] keeps of the identity sequence. *)
Lemma Uint16Array_small (n : Z) :
  (n <= 65536)%Z -> Uint16Array (upto n) = upto n.
Proof.
  intros Hn. unfold Uint16Array. rewrite <- (map_id (upto n)) at 2.
  apply map_ext_in. intros k Hk. apply In_upto in Hk.
  apply Z.mod_small. lia.
Qed.

Lemma get_Uint16Array (arr : list Z) (i : Z) :
  get (Uint16Array arr) i = option_map (fun k => (k mod 65536)%Z) (get arr i).
Proof.
  unfold get, Uint16Array. destruct (i <? 0)%Z; [reflexivity |].
  apply nth_error_map.
Qed.

Lemma indices_CreateSurfaceData (uCount vCount : Z) :
  (0 <= uCount)%Z -> (0 <= vCount)%Z ->
  exists b : SurfaceBuffers num,
    CreateSurfaceData uCount vCount = Some b /\
    indices b = Uint16Array (upto (6 * uCount * vCount)).
Proof.
  intros Hu Hv. destruct (CreateSurfaceData_ok uCount vCount) as [chunks [E _]].
  eexists. split; [exact E |]. cbn [indices].
  rewrite length_faces by lia. do 2 f_equal. lia.
Qed.

(** C2 (amended).  For [uCount >= 1] and [vCount >= 1] with
    [N = 6*uCount*vCount <= 65536] the index array is the identity
    sequence [0, 1, ..., N-1]. *)
Theorem index_identity_16bit (uCount vCount : Z) :
  (1 <= uCount)%Z -> (1 <= vCount)%Z -> (6 * uCount * vCount <= 65536)%Z ->
  exists b : SurfaceBuffers num,
    CreateSurfaceData uCount vCount = Some b /\
    indices b = upto (6 * uCount * vCount).
Proof.
  intros Hu Hv HN.
  destruct (@indices_CreateSurfaceData uCount vCount) as [b [E I]]; [lia | lia |].
  exists b. split; [exact E |]. rewrite I. now apply Uint16Array_small.
Qed.

(** C5 (amended).  With [uCount < 1] or [vCount < 1] nothing is rejected:
    no triangle is generated and the pipeline runs to its end and returns
    five empty arrays. *)
Theorem degenerate_resolution_not_rejected (uCount vCount : Z) :
  (uCount < 1)%Z \/ (vCount < 1)%Z ->
  faces uCount vCount = [] /\
  CreateSurfaceData uCount vCount
  = Some {| positions := []; normals := []; tangents := []; texcoords := [];
            indices := [] |}.
Proof.
  intros H. split; [exact (faces_empty H) |].
  destruct (CreateSurfaceData_ok uCount vCount) as [chunks [E T]].
  rewrite (faces_empty H) in E, T. inversion T; subst. exact E.
Qed.

(** C10.  [paramTo3D] and the arrow function that fills [vertexGrid] (in
    both textured variants) are the same function of the two angles, so
    every point of the sampled grid is [paramTo3D] of its angles. *)
Theorem paramTo3D_matches_grid (u v : num) :
  paramTo3D u v = gridVertex v u /\
  paramTo3D u v = gridVertex_marker v u /\
  forall uCount vCount iv iu : Z,
    (0 <= iv <= vCount)%Z -> (0 <= iu <= uCount)%Z ->
    row <- get (vertexGrid uCount vCount) iv ;; get row iu
    = Some (paramTo3D (uAngleAt uCount iu) (vAngleAt vCount iv)).
Proof.
  split; [reflexivity |]. split; [reflexivity |].
  intros uCount vCount iv iu Hv Hu. now rewrite get_vertexGrid.
Qed.

End Whole.

(** ** Every interpretation, and binary64 *)

Section Interpretations.

Context {num : Type} {NUM : Number num}.

Lemma gridAt_formula (uCount vCount iv iu : Z) :
  (0 <= iv <= vCount)%Z -> (0 <= iu <= uCount)%Z ->
  gridAt uCount vCount iv iu
  = Some (surfaceFormula (uAngleAt uCount iu) (vAngleAt vCount iv)).
Proof.
  intros Hv Hu. unfold gridAt. rewrite get_vertexGrid by assumption.
  reflexivity.
Qed.

(** The two [u] coordinates of the seam do not depend on the row. *)
Lemma seamU_eq (uCount vCount iv : Z) :
  (0 <= uCount)%Z -> (0 <= iv <= vCount)%Z ->
  seamU uCount vCount iv
  = Some (div (uAngleAt uCount 0) (mul (lit 2.0) Math_PI),
          div (uAngleAt uCount uCount) (mul (lit 2.0) Math_PI)).
Proof.
  intros Hu Hv. unfold seamU, paramToUV.
  rewrite get_vAngles by assumption.
  rewrite (@get_uAngles _ _ uCount 0), (@get_uAngles _ _ uCount uCount) by lia.
  reflexivity.
Qed.

End Interpretations.

(** A conjunction of closed equations, each settled by evaluation. *)
Ltac evaluate :=
  repeat match goal with |- _ /\ _ => split end; vm_compute; reflexivity.

(** The values the host functions take at the angles of the coarsest
    meshes: the binary64 nearest to [-pi/2] and to [2 pi] are not these
    real numbers, and the cosine of the one and the sine of the other are
    not 0. *)
Example Math_cos64_sin64_values :
  Math_cos64 0%float = 1%float /\
  Math_sin64 0%float = 0%float /\
  Math_cos64 (lit64 (-1.5707963267948966)) = lit64 6.123233995736766e-17 /\
  Math_sin64 (lit64 (-1.5707963267948966)) = (-1)%float /\
  Math_cos64 (lit64 6.283185307179586) = 1%float /\
  Math_sin64 (lit64 6.283185307179586) = lit64 (-2.4492935982947064e-16) /\
  Math_cos64 (lit64 0.5) = lit64 0.8775825618903728 /\
  Math_sin64 (lit64 0.5) = lit64 0.479425538604203.
Proof. evaluate. Qed.

Example lit64_fround64_values :
  lit64 0.5 = 0x1p-1%float /\
  lit64 0.24 = 0x1.eb851eb851eb8p-3%float /\
  lit64 1e-14 = 0x1.6849b86a12b9bp-47%float /\
  fround64 (lit64 0.24) = 0x1.eb851ep-3%float /\
  fround64 (lit64 1e-46) = 0%float /\
  fround64 (lit64 1e39) = infinity.
Proof. evaluate. Qed.

(** The texture coordinates involve no cosine and no sine: what follows
    holds in binary64 whatever the host functions are. *)
Section Float64.

Variables host_cos host_sin : float -> float.

Let B : Number float := Binary64With host_cos host_sin.

#[local] Existing Instance B.

(** For 39 columns the [u] coordinate of the last column is one unit in the
    last place below 1. *)
Lemma seamU_binary64_39 :
  seamU 39 1 0 = Some (0%float, lit64 0.9999999999999999).
Proof. vm_compute. reflexivity. Qed.

(** For every [uCount] from 1 to 1000, the [u] coordinate of the first
    column compares equal to 0 and that of the last column, once a
    [Float32Array] has rounded it, compares equal to 1 (the comparison is
    that of [===]). *)
Lemma seam_binary64_checked :
  forallb (fun uCount : Z =>
             PrimFloat.eqb
               (div (uAngleAt uCount 0) (mul (lit 2.0) Math_PI)) 0%float
             && PrimFloat.eqb
                  (fround64 (div (uAngleAt uCount uCount) (mul (lit 2.0) Math_PI)))
                  1%float)
          (map Z.of_nat (seq 1 1000))
  = true.
Proof. vm_compute. reflexivity. Qed.

Lemma seamU_binary64 (uCount vCount iv : Z) :
  (1 <= uCount <= 1000)%Z -> (0 <= iv <= vCount)%Z ->
  exists u0 u1 : float,
    seamU uCount vCount iv = Some (u0, u1) /\
    PrimFloat.eqb u0 0%float = true /\
    PrimFloat.eqb (fround64 u1) 1%float = true.
Proof.
  intros Hu Hv.
  assert (I : In uCount (map Z.of_nat (seq 1 1000))).
  { apply in_map_iff. exists (Z.to_nat uCount). split; [lia |].
    apply in_seq. lia. }
  pose proof (proj1 (forallb_forall _ _) seam_binary64_checked _ I) as E.
  apply andb_prop in E. destruct E as [E0 E1].
  rewrite seamU_eq by lia. do 2 eexists. split; [reflexivity |].
  split; [exact E0 | exact E1].
Qed.

End Float64.

(** ** Exact arithmetic *)

Section Exact.

Local Open Scope R_scope.

Ltac exact_num :=
  cbn [ofZ lit Math_PI add sub mul div Math_abs Math_cos Math_sin Math_sqrt
       fround RNumber];
  unfold Q2R; cbn [Qnum Qden].

Lemma vAngleAt_exact (vCount iv : Z) :
  (vCount <> 0)%Z ->
  vAngleAt vCount iv = (IZR iv / IZR vCount - 1 / 2) * PI.
Proof.
  intros H. assert (IZR vCount <> 0) by (apply not_0_IZR; exact H).
  unfold vAngleAt, deg2rad, stepV. exact_num. field. exact H0.
Qed.

Lemma uAngleAt_exact (uCount iu : Z) :
  (uCount <> 0)%Z ->
  uAngleAt uCount iu = 2 * PI * (IZR iu / IZR uCount).
Proof.
  intros H. assert (IZR uCount <> 0) by (apply not_0_IZR; exact H).
  unfold uAngleAt, deg2rad, stepU. exact_num. field. exact H0.
Qed.

Lemma gridVertex_exact (vRad uRad : R) :
  gridVertex vRad uRad = surfacePoint uRad vRad.
Proof.
  unfold gridVertex, surfacePoint. exact_num.
  repeat f_equal; lra.
Qed.

Lemma gridAt_exact (uCount vCount iv iu : Z) :
  (0 <= iv <= vCount)%Z -> (0 <= iu <= uCount)%Z ->
  gridAt uCount vCount iv iu
  = Some (surfacePoint (uAngleAt uCount iu) (vAngleAt vCount iv)).
Proof.
  intros Hv Hu. unfold gridAt. rewrite get_vertexGrid by assumption.
  now rewrite gridVertex_exact.
Qed.

Lemma surfacePoint_south_pole :
  surfacePoint 0 (- (PI / 2)) = (0.48, 0, -1.0).
Proof.
  unfold surfacePoint.
  rewrite cos_neg, sin_neg, cos_PI2, sin_PI2.
  replace (6 * 0) with 0 by lra. rewrite cos_0, sin_0, Rabs_R1.
  repeat f_equal; lra.
Qed.

(** The first replicated vertex of a non-empty mesh is the lattice point of
    corner 0 of triangle 0. *)
Lemma first_flat_vertex (uCount vCount iA iB iC : Z) (fs : list triangle)
    (chunks : list (list (FlatVertex R))) :
  faces uCount vCount = (iA, iB, iC) :: fs ->
  Forall2 (flatTriangleOf uCount vCount) (faces uCount vCount) chunks ->
  exists fv rest,
    concat chunks = fv :: rest /\
    get (flat (vertexGrid uCount vCount)) iA = Some (fv_x fv, fv_y fv, fv_z fv).
Proof.
  intros E T. rewrite E in T. inversion T as [| f c fs' cs H T' ]; subst.
  destruct H as [fa [fb [fc [n [t [-> [[HA _] _]]]]]]].
  exists fa. eexists. split; [reflexivity | exact HA].
Qed.

(** C4.  In every interpretation of Number, every point of the sampled
    grid is the parametric surface formula (with [R = 1.0], [a = 0.24],
    [n = 6]) at the angles of its lattice coordinate; for [uCount = 4] and
    [vCount = 2], corner 0 of triangle 0 is the lattice point
    [(iv, iu) = (0, 0)].  In exact arithmetic its angles are 0 and [-pi/2],
    and the first replicated vertex, and with it the first three entries of
    the position array, is [surfacePoint(0, -pi/2) = (0.48, 0, -1.0)].  In
    binary64 the angle [v] is the binary64 nearest to [-pi/2], whose cosine
    is 6.1e-17 and not 0: the first replicated vertex is
    [(0.48000000000000004, 0, -1)], and the position array keeps its
    binary32 rounding [(0.47999998927116394, 0, -1)], which is also the
    rounding of 0.48. *)
Theorem surface_formula_and_example :
  (forall (num : Type) (NUM : Number num) (uCount vCount iv iu : Z),
     (0 <= iv <= vCount)%Z -> (0 <= iu <= uCount)%Z ->
     gridAt uCount vCount iv iu
     = Some (surfaceFormula (uAngleAt uCount iu) (vAngleAt vCount iv))) /\
  (exists iB iC, get (faces 4 2) 0 = Some (indexOf 4 0 0, iB, iC)) /\
  (forall u v : R, surfaceFormula u v = surfacePoint u v) /\
  @uAngleAt R RNumber 4 0 = 0 /\ @vAngleAt R RNumber 2 0 = - (PI / 2) /\
  surfacePoint 0 (- (PI / 2)) = (0.48, 0, -1.0) /\
  @gridAt R RNumber 4 2 0 0 = Some (0.48, 0, -1.0) /\
  @firstVertex R RNumber 4 2 = Some (0.48, 0, -1.0) /\
  @firstPosition R RNumber 4 2 = Some [0.48; 0; -1.0] /\
  @uAngleAt float Binary64 4 0 = 0%float /\
  @vAngleAt float Binary64 2 0 = lit64 (-1.5707963267948966) /\
  Math_cos64 (lit64 (-1.5707963267948966)) = lit64 6.123233995736766e-17 /\
  @gridAt float Binary64 4 2 0 0
  = Some (lit64 0.48000000000000004, 0%float, (-1)%float) /\
  @firstVertex float Binary64 4 2
  = Some (lit64 0.48000000000000004, 0%float, (-1)%float) /\
  @firstPosition float Binary64 4 2
  = Some [lit64 0.47999998927116394; 0%float; (-1)%float] /\
  fround64 (lit64 0.48) = lit64 0.47999998927116394.
Proof.
  assert (Eu : uAngleAt 4 0 = 0) by (rewrite uAngleAt_exact by lia; lra).
  assert (Ev : vAngleAt 2 0 = - (PI / 2)) by (rewrite vAngleAt_exact by lia; lra).
  split; [exact (@gridAt_formula) |].
  split; [now exists 5%Z, 1%Z |].
  split; [exact (fun u v => gridVertex_exact v u) |].
  split; [exact Eu |]. split; [exact Ev |].
  split; [exact surfacePoint_south_pole |].
  split; [now rewrite gridAt_exact, Eu, Ev, surfacePoint_south_pole by lia |].
  destruct (flatShade_ok (num := R) 4 2) as [chunks [E T]].
  destruct (@first_flat_vertex 4 2 0 5 1 _ chunks eq_refl T) as [fv [rest [C G]]].
  assert (P : (fv_x fv, fv_y fv, fv_z fv) = (0.48, 0, -1.0)).
  { pose proof (@get_flat_vertexGrid R _ 4 2 0 0 ltac:(lia) ltac:(lia)) as G'.
    change (indexOf 4 0 0) with 0%Z in G'.
    rewrite gridVertex_exact, Eu, Ev, surfacePoint_south_pole in G'.
    congruence. }
  split.
  { unfold firstVertex. rewrite E. cbn [flatVertices]. rewrite C.
    cbn [get Z.ltb Z.compare Z.to_nat nth_error]. now rewrite P. }
  split.
  { unfold firstPosition, CreateSurfaceData. rewrite E, pack_eq.
    cbn [positions flatVertices]. rewrite C. unfold packed3.
    cbn [flat_map app firstn fround RNumber].
    injection P as -> -> ->. reflexivity. }
  evaluate.
Qed.

Lemma surfacePoint_seam (v : R) : surfacePoint (2 * PI) v = surfacePoint 0 v.
Proof.
  unfold surfacePoint.
  replace (6 * (2 * PI)) with (0 + 2 * INR 6 * PI) by (simpl; lra).
  rewrite cos_period. replace (6 * 0) with 0 by lra.
  now rewrite cos_2PI, sin_2PI, cos_0, sin_0.
Qed.

Lemma uCoord_exact (uCount iu : Z) :
  (1 <= uCount)%Z ->
  uAngleAt uCount iu / (2 * PI) = IZR iu / IZR uCount.
Proof.
  intros H. rewrite uAngleAt_exact by lia.
  assert (IZR uCount <> 0) by (apply not_0_IZR; lia).
  pose proof PI_neq0. now field.
Qed.

Lemma vCoord_exact (vCount iv : Z) :
  (1 <= vCount)%Z ->
  (vAngleAt vCount iv + PI / 2) / PI = IZR iv / IZR vCount.
Proof.
  intros H. rewrite vAngleAt_exact by lia.
  assert (IZR vCount <> 0) by (apply not_0_IZR; lia).
  pose proof PI_neq0. now field.
Qed.

Lemma ratio_unit (i n : Z) :
  (0 <= i <= n)%Z -> (1 <= n)%Z -> 0 <= IZR i / IZR n <= 1.
Proof.
  intros Hi Hn.
  assert (H0 : 0 <= IZR i) by (apply IZR_le; lia).
  assert (H1 : IZR i <= IZR n) by (apply IZR_le; lia).
  assert (H2 : 0 < IZR n) by (apply IZR_lt; lia).
  pose proof (Rinv_0_lt_compat _ H2) as H3.
  assert (H4 : IZR n * / IZR n = 1) by (apply Rinv_r; lra).
  unfold Rdiv. split; nra.
Qed.

Lemma paramToUV_exact (uCount vCount iv iu : Z) :
  (0 <= iv <= vCount)%Z -> (0 <= iu <= uCount)%Z ->
  paramToUV (vAngles vCount) (uAngles uCount) iv iu
  = Some (uAngleAt uCount iu / (2 * PI), (vAngleAt vCount iv + PI / 2) / PI).
Proof.
  intros Hv Hu. unfold paramToUV. rewrite get_vAngles, get_uAngles by lia.
  exact_num. do 2 f_equal; f_equal; lra.
Qed.

(** C6.  In exact arithmetic, in every row [iv] of the grid the points of
    the columns [iu = 0] and [iu = uCount] are the same point of space,
    their texture coordinates have the same [v], and [u] is 0 at [iu = 0]
    and 1 at [iu = uCount].  In binary64 this holds up to rounding only:
    for [uCount = 4] and [vCount = 2] the two points of row 1 are
    [(1.24, 0, 0)] and [(1.24, -3.04e-16, 0)], and, whatever cosine and
    sine the host provides, for [uCount = 39] [paramToUV] returns
    [u = 0.9999999999999999] in the last column; for every [uCount] from 1
    to 1000, [u] compares equal to 0 in the first column and, once a
    [Float32Array] has rounded it, to 1 in the last. *)
Theorem seam_distinctness :
  (forall uCount vCount iv : Z,
     (1 <= uCount)%Z -> (1 <= vCount)%Z -> (0 <= iv <= vCount)%Z ->
     exists (p : R * R * R) (vCoord : R),
       gridAt uCount vCount iv 0 = Some p /\
       gridAt uCount vCount iv uCount = Some p /\
       paramToUV (vAngles vCount) (uAngles uCount) iv 0 = Some (0, vCoord) /\
       paramToUV (vAngles vCount) (uAngles uCount) iv uCount = Some (1, vCoord)) /\
  @gridAt float Binary64 4 2 1 0 = Some (lit64 1.24, 0%float, 0%float) /\
  @gridAt float Binary64 4 2 1 4
  = Some (lit64 1.24, lit64 (-3.037124061885436e-16), 0%float) /\
  (forall host_cos host_sin : float -> float,
     @seamU float (Binary64With host_cos host_sin) 39 1 0
     = Some (0%float, lit64 0.9999999999999999)) /\
  fround64 (lit64 0.9999999999999999) = 1%float /\
  (forall (host_cos host_sin : float -> float) (uCount vCount iv : Z),
     (1 <= uCount <= 1000)%Z -> (0 <= iv <= vCount)%Z ->
     exists u0 u1 : float,
       @seamU float (Binary64With host_cos host_sin) uCount vCount iv
       = Some (u0, u1) /\
       PrimFloat.eqb u0 0%float = true /\
       PrimFloat.eqb (fround64 u1) 1%float = true).
Proof.
  split.
  { intros uCount vCount iv Hu Hv Hiv.
    assert (N : IZR uCount <> 0) by (apply not_0_IZR; lia).
    assert (E0 : uAngleAt uCount 0 = 0)
      by (rewrite uAngleAt_exact by lia; now field).
    assert (E1 : uAngleAt uCount uCount = 2 * PI)
      by (rewrite uAngleAt_exact by lia; now field).
    exists (surfacePoint 0 (vAngleAt vCount iv)),
           ((vAngleAt vCount iv + PI / 2) / PI).
    rewrite !gridAt_exact, !paramToUV_exact by lia.
    rewrite E0, E1, surfacePoint_seam.
    pose proof PI_neq0.
    repeat split; do 2 f_equal; now field. }
  split; [vm_compute; reflexivity |].
  split; [vm_compute; reflexivity |].
  split; [exact seamU_binary64_39 |].
  split; [vm_compute; reflexivity |].
  exact seamU_binary64.
Qed.

Lemma uv_on_lattice (uCount vCount i : Z) (a b : R) :
  (1 <= uCount)%Z -> (1 <= vCount)%Z ->
  onLattice uCount vCount i ->
  paramToUV (vAngles vCount) (uAngles uCount)
    (i / (uCount + 1))%Z (Z.rem i (uCount + 1)) = Some (a, b) ->
  (0 <= a <= 1) /\ (0 <= b <= 1).
Proof.
  intros Hu Hv [iv [iu [Hiv [Hiu ->]]]] E.
  rewrite index_div, index_rem, paramToUV_exact in E by lia.
  assert (Ea : uAngleAt uCount iu / (2 * PI) = a) by congruence.
  assert (Eb : (vAngleAt vCount iv + PI / 2) / PI = b) by congruence.
  rewrite <- Ea, <- Eb, uCoord_exact, vCoord_exact by lia.
  split; apply ratio_unit; lia.
Qed.

Lemma uv_of_chunks (uCount vCount : Z) (fs : list triangle)
    (chunks : list (list (FlatVertex R))) :
  (1 <= uCount)%Z -> (1 <= vCount)%Z ->
  Forall2 (flatTriangleOf uCount vCount) fs chunks ->
  (forall t, In t fs -> triangleOnLattice uCount vCount t) ->
  Forall (fun fv => (0 <= fv_u fv <= 1) /\ (0 <= fv_v fv <= 1)) (concat chunks).
Proof.
  intros Hu Hv T. induction T as [| [[iA iB] iC] chunk fs chunks H _ IH]; intros L.
  - constructor.
  - destruct (L _ (or_introl eq_refl)) as [LA [LB LC]].
    destruct H as [fa [fb [fc [n [t [-> [[_ [UA _]] [[_ [UB _]] [_ [UC _]]]]]]]]]].
    cbn [concat app].
    constructor; [exact (@uv_on_lattice uCount vCount iA _ _ Hu Hv LA UA) |].
    constructor; [exact (@uv_on_lattice uCount vCount iB _ _ Hu Hv LB UB) |].
    constructor; [exact (@uv_on_lattice uCount vCount iC _ _ Hu Hv LC UC) |].
    apply IH. intros t' H'. apply L. now right.
Qed.

(** C9.  On the sampled lattice the UV mapper returns
    [(uAngle[iu] / (2 pi), (vAngle[iv] + pi/2) / pi)], and every entry of
    the texture-coordinate array lies in [[0, 1]]. *)
Theorem uv_mapper_range (uCount vCount : Z) :
  (1 <= uCount)%Z -> (1 <= vCount)%Z ->
  (forall iv iu : Z,
     (0 <= iv <= vCount)%Z -> (0 <= iu <= uCount)%Z ->
     exists uAngle vAngle : R,
       get (uAngles uCount) iu = Some uAngle /\
       get (vAngles vCount) iv = Some vAngle /\
       paramToUV (vAngles vCount) (uAngles uCount) iv iu
       = Some (uAngle / (2 * PI), (vAngle + PI / 2) / PI)) /\
  exists b : SurfaceBuffers R,
    CreateSurfaceData uCount vCount = Some b /\
    Forall (fun c => 0 <= c <= 1) (texcoords b).
Proof.
  intros Hu Hv. split.
  - intros iv iu Hiv Hiu.
    exists (uAngleAt uCount iu), (vAngleAt vCount iv).
    rewrite get_uAngles, get_vAngles, paramToUV_exact by lia. auto.
  - destruct (CreateSurfaceData_ok (num := R) uCount vCount) as [chunks [E T]].
    eexists. split; [exact E |]. cbn [texcoords].
    pose proof (uv_of_chunks Hu Hv T (@faces_onLattice uCount vCount)) as F.
    unfold packed2. apply Forall_forall. intros c Hc.
    apply in_flat_map in Hc. destruct Hc as [fv [Hfv Hc]].
    rewrite Forall_forall in F. destruct (F fv Hfv) as [Fu Fv].
    cbn [fround RNumber] in Hc.
    destruct Hc as [<- | [<- | []]]; assumption.
Qed.

Lemma Rltb_true (x y : R) : Rltb x y = true <-> x < y.
Proof. unfold Rltb. destruct (Rlt_dec x y); split; auto; discriminate. Qed.

Lemma Rltb_false (x y : R) : Rltb x y = false <-> ~ x < y.
Proof.
  unfold Rltb. destruct (Rlt_dec x y); split; auto; try discriminate.
  intros H. contradiction.
Qed.

Lemma area_exact (p0 p1 p2 : R * R * R) :
  m4_length (m4_cross (m4_subtractVectors p1 p0) (m4_subtractVectors p2 p0)) * lit 0.5
  = triangleArea p0 p1 p2.
Proof. unfold triangleArea. exact_num. lra. Qed.

Lemma placeholder_adds_nothing (sum : R * R * R) :
  m4_addVectors sum (m4_scaleVector (ofZ 0, ofZ 0, ofZ 1) (ofZ 0)) = sum.
Proof.
  destruct sum as [[a b] c]. unfold m4_addVectors, m4_scaleVector. exact_num.
  repeat f_equal; lra.
Qed.

Lemma accumCorner_placeholder (accum : list (R * R * R)) (idx : Z) :
  (0 <= idx < Z.of_nat (length accum))%Z ->
  accumCorner (ofZ 0, ofZ 0, ofZ 1) (ofZ 0) (Some accum) idx = Some accum.
Proof.
  intros Hi. destruct (get_in_range accum Hi) as [old E].
  unfold accumCorner. rewrite E, placeholder_adds_nothing.
  now rewrite set_same.
Qed.

(** C8.  A triangle whose area [0.5 * |(p1-p0) x (p2-p0)|] is below
    [1e-14] gets the normal [(0, 0, 1)] and the area 0, which added to any
    sum leaves it as it is, so the accumulation step of that triangle
    returns the accumulator unchanged; any other triangle gets the
    normalized cross product and the area itself.  The function has no
    failing path. *)
Theorem degenerate_triangle_zero_weight (p0 p1 p2 : R * R * R) :
  (triangleArea p0 p1 p2 < 1e-14 ->
   computeFaceNormalAndArea p0 p1 p2 = ((0, 0, 1), 0) /\
   (forall sum : R * R * R,
      m4_addVectors sum
        (m4_scaleVector (fst (computeFaceNormalAndArea p0 p1 p2))
                        (snd (computeFaceNormalAndArea p0 p1 p2))) = sum) /\
   (forall (vertices accum : list (R * R * R)) (iA iB iC : Z),
      length accum = length vertices ->
      get vertices iA = Some p0 -> get vertices iB = Some p1 ->
      get vertices iC = Some p2 ->
      accumFace vertices (Some accum) (iA, iB, iC) = Some accum)) /\
  (~ triangleArea p0 p1 p2 < 1e-14 ->
   computeFaceNormalAndArea p0 p1 p2
   = (m4_normalize (m4_cross (m4_subtractVectors p1 p0) (m4_subtractVectors p2 p0)),
      triangleArea p0 p1 p2)).
Proof.
  assert (T : lit 1e-14 = 1e-14) by (cbn [lit RNumber]; unfold Q2R; simpl; lra).
  split.
  - intros H.
    assert (E : computeFaceNormalAndArea p0 p1 p2 = ((0, 0, 1), 0)).
    { unfold computeFaceNormalAndArea. cbv zeta. rewrite area_exact, T.
      cbn [ltb RNumber]. rewrite (proj2 (Rltb_true _ _) H). reflexivity. }
    split; [exact E |]. split.
    + intros sum. rewrite E. apply placeholder_adds_nothing.
    + intros vertices accum iA iB iC L EA EB EC.
      unfold accumFace. rewrite EA, EB, EC, E. cbn [fold_left].
      apply get_range in EA, EB, EC.
      change (0, 0, 1, 0) with ((ofZ 0, ofZ 0, ofZ 1) : R * R * R, ofZ 0 : R).
      rewrite !accumCorner_placeholder by lia. reflexivity.
  - intros H. unfold computeFaceNormalAndArea. cbv zeta. rewrite area_exact, T.
    cbn [ltb RNumber]. rewrite (proj2 (Rltb_false _ _) H). reflexivity.
Qed.

End Exact.

(** ** Concrete inputs *)

Section Concrete.

Local Open Scope R_scope.

Lemma vertex_count_invariant_witness :
  (1 <= 4)%Z /\ (1 <= 2)%Z /\
  Z.of_nat (length (faces 4 2)) = 16%Z /\
  exists (s : FlatState R) (b : SurfaceBuffers R),
    flatShade 4 2 = Some s /\
    Z.of_nat (length (flatVertices s)) = 48%Z /\
    CreateSurfaceData 4 2 = Some b /\
    Z.of_nat (length (positions b)) = 144%Z /\
    Z.of_nat (length (normals b)) = 144%Z /\
    Z.of_nat (length (tangents b)) = 144%Z /\
    Z.of_nat (length (texcoords b)) = 96%Z.
Proof.
  split; [lia |]. split; [lia |].
  apply (@vertex_count_invariant R RNumber 4 2); lia.
Defined.

(** At 105 by 105 cells the index array is not the identity sequence:
    position 65536 holds 0. *)
Lemma index_identity_counterexample :
  (1 <= 105)%Z /\ (1 <= 105)%Z /\
  ~ exists b : SurfaceBuffers R,
      CreateSurfaceData 105 105 = Some b /\
      indices b = upto (6 * 105 * 105).
Proof.
  split; [lia |]. split; [lia |]. intros [b [E I]].
  destruct (@indices_CreateSurfaceData R RNumber 105 105) as [b' [E' I']];
    [lia | lia |].
  rewrite E in E'. injection E' as <-. rewrite I in I'.
  apply (f_equal (fun l => get l 65536)) in I'.
  rewrite get_Uint16Array, get_upto in I' by lia.
  discriminate I'.
Qed.

Lemma index_identity_16bit_witness :
  (1 <= 4)%Z /\ (1 <= 2)%Z /\ (6 * 4 * 2 <= 65536)%Z /\
  exists b : SurfaceBuffers R,
    CreateSurfaceData 4 2 = Some b /\
    indices b = upto 48.
Proof.
  split; [lia |]. split; [lia |]. split; [lia |].
  apply (@index_identity_16bit R RNumber 4 2); lia.
Defined.

Lemma surface_formula_and_example_witness :
  (0 <= 1 <= 2)%Z /\ (0 <= 2 <= 4)%Z /\
  gridAt 4 2 1 2 = Some (surfacePoint (uAngleAt 4 2) (vAngleAt 2 1)).
Proof.
  split; [lia |]. split; [lia |].
  rewrite <- (proj1 (proj2 (proj2 surface_formula_and_example))).
  apply (proj1 surface_formula_and_example); lia.
Defined.

(** In binary64 neither the first replicated vertex nor the first entry of
    the position array of the 4 by 2 mesh compares equal to 0.48. *)
Lemma surface_formula_counterexample :
  @firstVertex float Binary64 4 2
  = Some (lit64 0.48000000000000004, 0%float, (-1)%float) /\
  PrimFloat.eqb (lit64 0.48000000000000004) (lit64 0.48) = false /\
  @firstPosition float Binary64 4 2
  = Some [lit64 0.47999998927116394; 0%float; (-1)%float] /\
  PrimFloat.eqb (lit64 0.47999998927116394) (lit64 0.48) = false.
Proof. evaluate. Qed.

(** With no columns the pipeline still builds a four-row grid and returns. *)
Lemma degenerate_resolution_counterexample :
  length (vertexGrid (num := R) 0 3) = 4%nat /\
  CreateSurfaceData (num := R) 0 3 <> None.
Proof.
  split.
  - unfold vertexGrid. now rewrite length_map, length_vAngles.
  - destruct (CreateSurfaceData_ok (num := R) 0 3) as [chunks [E _]].
    rewrite E. discriminate.
Qed.

Lemma degenerate_resolution_not_rejected_witness :
  ((0 < 1)%Z \/ (3 < 1)%Z) /\
  faces 0 3 = [] /\
  CreateSurfaceData (num := R) 0 3
  = Some {| positions := []; normals := []; tangents := []; texcoords := [];
            indices := [] |}.
Proof.
  split; [left; lia |].
  apply (@degenerate_resolution_not_rejected R RNumber 0 3). left. lia.
Defined.

Lemma seam_distinctness_witness :
  (1 <= 4)%Z /\ (1 <= 2)%Z /\ (0 <= 1 <= 2)%Z /\
  exists (p : R * R * R) (vCoord : R),
    gridAt 4 2 1 0 = Some p /\
    gridAt 4 2 1 4 = Some p /\
    paramToUV (vAngles 2) (uAngles 4) 1 0 = Some (0, vCoord) /\
    paramToUV (vAngles 2) (uAngles 4) 1 4 = Some (1, vCoord).
Proof.
  split; [lia |]. split; [lia |]. split; [lia |].
  apply (proj1 seam_distinctness 4%Z 2%Z 1%Z); lia.
Defined.

(** In binary64 the two seam points of row 1 of the 4 by 2 mesh differ in
    [y], and with 39 columns the [u] coordinate that [paramToUV] returns in
    the last column, which involves no cosine and no sine, does not compare
    equal to 1. *)
Lemma seam_distinctness_counterexample :
  @gridAt float Binary64 4 2 1 0 = Some (lit64 1.24, 0%float, 0%float) /\
  @gridAt float Binary64 4 2 1 4
  = Some (lit64 1.24, lit64 (-3.037124061885436e-16), 0%float) /\
  PrimFloat.eqb 0%float (lit64 (-3.037124061885436e-16)) = false /\
  @paramToUV float Binary64 (@vAngles float Binary64 1)
    (@uAngles float Binary64 39) 0 39
  = Some (lit64 0.9999999999999999, 0%float) /\
  PrimFloat.eqb (lit64 0.9999999999999999) 1%float = false.
Proof. evaluate. Qed.

Lemma degenerate_triangle_zero_weight_witness :
  triangleArea (0, 0, 0) (0, 0, 0) (0, 0, 0) < 1e-14 /\
  computeFaceNormalAndArea (0, 0, 0) (0, 0, 0) (0, 0, 0) = ((0, 0, 1), 0).
Proof.
  assert (H : triangleArea (0, 0, 0) (0, 0, 0) (0, 0, 0) < 1e-14).
  { unfold triangleArea, m4_length, m4_cross, m4_subtractVectors.
    cbn [add sub mul Math_sqrt RNumber].
    replace ((0 - 0) * (0 - 0) - (0 - 0) * (0 - 0)) with 0 by lra.
    replace (0 * 0 + 0 * 0 + 0 * 0) with 0 by lra.
    rewrite sqrt_0. lra. }
  split; [exact H |].
  apply (proj1 (@degenerate_triangle_zero_weight (0, 0, 0) (0, 0, 0) (0, 0, 0)) H).
Defined.

Lemma uv_mapper_range_witness :
  (1 <= 4)%Z /\ (1 <= 2)%Z /\
  exists b : SurfaceBuffers R,
    CreateSurfaceData 4 2 = Some b /\
    Forall (fun c => 0 <= c <= 1) (texcoords b).
Proof.
  split; [lia |]. split; [lia |].
  apply (@uv_mapper_range 4 2); lia.
Defined.

Lemma paramTo3D_matches_grid_witness :
  (0 <= 1 <= 2)%Z /\ (0 <= 2 <= 4)%Z /\
  row <- get (vertexGrid (num := R) 4 2) 1 ;; get row 2
  = Some (paramTo3D (uAngleAt 4 2) (vAngleAt 2 1)).
Proof.
  split; [lia |]. split; [lia |].
  apply (proj2 (proj2 (@paramTo3D_matches_grid R RNumber 0 0))); lia.
Defined.

End Concrete.

(** ** The two flat-shaded variants side by side *)

Section Variants.

Context {num : Type} {NUM : Number num}.

Lemma fold_flatFace_None (uCount : Z) (vertices nn : list (vec3 num))
    (vAng uAng : list num) (fs : list triangle) :
  fold_left (flatFace uCount vertices nn vAng uAng) fs None = None.
Proof. induction fs as [| f fs IH]; [reflexivity | exact IH]. Qed.

Lemma flatFace_untextured (uCount : Z) (vertices nn : list (vec3 num))
    (vAng uAng : list num) (s s' : FlatState num) (face : triangle) :
  flatFace uCount vertices nn vAng uAng (Some s) face = Some s' ->
  Shaded.flatFace vertices nn (Some (untexturedState s)) face
  = Some (untexturedState s').
Proof.
  destruct face as [[iA iB] iC]. unfold flatFace, Shaded.flatFace.
  destruct (get vertices iA) as [[[xA yA] zA] |] eqn:GA; [| discriminate].
  destruct (get vertices iB) as [[[xB yB] zB] |] eqn:GB; [| discriminate].
  destruct (get vertices iC) as [[[xC yC] zC] |] eqn:GC; [| discriminate].
  destruct (get nn iA) as [nA |]; [| discriminate].
  destruct (get nn iB) as [nB |]; [| discriminate].
  destruct (get nn iC) as [nC |]; [| discriminate].
  cbv zeta.
  destruct (paramToUV vAng uAng (iA / (uCount + 1)) (Z.rem iA (uCount + 1)))
    as [[uA vA] |]; [| discriminate].
  destruct (paramToUV vAng uAng (iB / (uCount + 1)) (Z.rem iB (uCount + 1)))
    as [[uB vB] |]; [| discriminate].
  destruct (paramToUV vAng uAng (iC / (uCount + 1)) (Z.rem iC (uCount + 1)))
    as [[uC vC] |]; [| discriminate].
  destruct (m4_normalize (m4_addVectors (m4_addVectors nA nB) nC))
    as [[n0 n1] n2].
  destruct (m4_normalize (computeFaceTangent _ _ _ _ _ _)) as [[t0 t1] t2].
  intros E. injection E as <-.
  cbn [fold_left]. unfold Shaded.flatCorner at 3. rewrite GA.
  unfold Shaded.flatCorner at 2. rewrite GB.
  unfold Shaded.flatCorner at 1. rewrite GC.
  cbn [fold_left flatCorner untexturedState
       flatVertices flatIndices idxCounter
       Shaded.flatVertices Shaded.flatIndices Shaded.idxCounter].
  unfold push, untexturedState. cbn [flatVertices flatIndices idxCounter].
  rewrite !map_app. reflexivity.
Qed.

Lemma flatFaces_untextured (uCount : Z) (vertices nn : list (vec3 num))
    (vAng uAng : list num) (fs : list triangle) :
  forall s s' : FlatState num,
    fold_left (flatFace uCount vertices nn vAng uAng) fs (Some s) = Some s' ->
    fold_left (Shaded.flatFace vertices nn) fs (Some (untexturedState s))
    = Some (untexturedState s').
Proof.
  induction fs as [| f fs IH]; intros s s' E.
  - cbn [fold_left] in *. now injection E as <-.
  - cbn [fold_left] in *.
    destruct (flatFace uCount vertices nn vAng uAng (Some s) f) as [s1 |] eqn:E1.
    + rewrite (@flatFace_untextured _ _ _ _ _ _ _ _ E1). now apply IH.
    + now rewrite fold_flatFace_None in E.
Qed.

Lemma pack_untextured (l : list (FlatVertex num)) :
  forall (i : Z) (b : SurfaceBuffers num) (b' : Shaded.SurfaceBuffers num),
    Shaded.positions b' = positions b ->
    Shaded.normals b' = normals b ->
    Shaded.indices b' = indices b ->
    let r := forEach_from packVertex l i b in
    let r' := forEach_from Shaded.packVertex (map untextured l) i b' in
    Shaded.positions r' = positions r /\
    Shaded.normals r' = normals r /\
    Shaded.indices r' = indices r.
Proof.
  induction l as [| fv l IH]; intros i b b' Hp Hn Hi; cbv zeta.
  - auto.
  - cbn [map forEach_from]. apply IH.
    + cbn [Shaded.positions Shaded.packVertex positions packVertex untextured
           Shaded.fv_x Shaded.fv_y Shaded.fv_z]. now rewrite Hp.
    + cbn [Shaded.normals Shaded.packVertex normals packVertex untextured
           Shaded.fv_nx Shaded.fv_ny Shaded.fv_nz]. now rewrite Hn.
    + exact Hi.
Qed.

(** X1.  At every resolution both flat-shaded variants return, and the
    variant without texture coordinates returns the same position array,
    the same normal array and the same index array as the textured one. *)
Theorem untextured_variant_agrees (uCount vCount : Z) :
  exists (b : SurfaceBuffers num) (b' : Shaded.SurfaceBuffers num),
    CreateSurfaceData uCount vCount = Some b /\
    Shaded.CreateSurfaceData uCount vCount = Some b' /\
    Shaded.positions b' = positions b /\
    Shaded.normals b' = normals b /\
    Shaded.indices b' = indices b.
Proof.
  destruct (flatShade_ok (num := num) uCount vCount) as [chunks [E _]].
  unfold CreateSurfaceData, Shaded.CreateSurfaceData. rewrite E.
  unfold flatShade in E. unfold Shaded.flatShade.
  destruct (normalizedNormals (flat (vertexGrid uCount vCount)) (faces uCount vCount))
    as [nn |]; [| discriminate].
  apply flatFaces_untextured in E.
  change (untexturedState {| flatVertices := []; flatIndices := []; idxCounter := 0 |})
    with {| Shaded.flatVertices := @nil (Shaded.FlatVertex num);
            Shaded.flatIndices := []; Shaded.idxCounter := 0 |} in E.
  rewrite E. eexists. eexists. split; [reflexivity |]. split; [reflexivity |].
  unfold pack, Shaded.pack, forEach.
  cbn [untexturedState Shaded.flatVertices Shaded.flatIndices flatVertices flatIndices].
  rewrite length_map.
  apply pack_untextured; reflexivity.
Qed.

(** X2.  Every entry of the index array addresses a complete vertex of the
    attribute arrays, also when the 16-bit store has wrapped it: the array
    has one entry per replicated vertex and an entry [k] satisfies
    [3k + 2 < |positions|] and [2k + 1 < |texcoords|]. *)
Theorem indices_address_vertices (uCount vCount : Z) :
  exists b : SurfaceBuffers num,
    CreateSurfaceData uCount vCount = Some b /\
    (3 * Z.of_nat (length (indices b)) = Z.of_nat (length (positions b)))%Z /\
    Forall (fun k => (0 <= k)%Z /\
                     (3 * k + 2 < Z.of_nat (length (positions b)))%Z /\
                     (3 * k + 2 < Z.of_nat (length (normals b)))%Z /\
                     (3 * k + 2 < Z.of_nat (length (tangents b)))%Z /\
                     (2 * k + 1 < Z.of_nat (length (texcoords b)))%Z)
           (indices b).
Proof.
  destruct (CreateSurfaceData_ok (num := num) uCount vCount) as [chunks [E T]].
  eexists. split; [exact E |].
  cbn [indices positions normals tangents texcoords].
  rewrite !length_packed3, length_packed2, (length_chunks T).
  unfold Uint16Array. rewrite length_map, length_upto. split; [lia |].
  apply Forall_forall. intros k Hk. apply in_map_iff in Hk.
  destruct Hk as [j [<- Hj]]. apply In_upto in Hj.
  pose proof (Z.mod_pos_bound j 65536 ltac:(lia)) as B.
  assert (j mod 65536 <= j)%Z by (apply Z.mod_le; lia).
  lia.
Qed.

End Variants.


(** ** Face normals and face tangents in exact arithmetic *)

Section FaceGeometry.

Local Open Scope R_scope.

Ltac exact_ops :=
  cbn [ofZ lit Math_PI add sub mul div ltb Math_abs Math_cos Math_sin Math_sqrt
       fround RNumber].

Lemma lit_exact_values :
  lit 1e-14 = 1e-14 /\ lit 0.5 = 0.5 /\ lit 1.0 = 1 /\ lit 0.0 = 0 /\
  lit 2.0 = 2 /\ lit 0.24 = 0.24 /\ lit 180.0 = 180.
Proof. repeat split; cbn [lit RNumber]; unfold Q2R; simpl; lra. Qed.

Lemma m4_length_nonneg (v : R * R * R) : 0 <= m4_length v.
Proof. destruct v as [[a b] c]. unfold m4_length. exact_ops. apply sqrt_pos. Qed.

Lemma m4_cross_swap (a b : R * R * R) :
  m4_cross b a
  = (- fst (fst (m4_cross a b)), - snd (fst (m4_cross a b)), - snd (m4_cross a b)).
Proof.
  destruct a as [[a0 a1] a2], b as [[b0 b1] b2]. unfold m4_cross. exact_ops.
  cbn [fst snd]. repeat f_equal; lra.
Qed.

Lemma m4_length_opp (a b c : R) : m4_length (- a, - b, - c) = m4_length (a, b, c).
Proof. unfold m4_length. exact_ops. f_equal. lra. Qed.

Lemma m4_cross_self (a : R * R * R) : m4_cross a a = (0, 0, 0).
Proof.
  destruct a as [[a0 a1] a2]. unfold m4_cross. exact_ops. repeat f_equal; lra.
Qed.

Lemma m4_length_zero : m4_length (0, 0, 0) = 0.
Proof.
  unfold m4_length. exact_ops.
  replace (0 * 0 + 0 * 0 + 0 * 0) with 0 by lra. apply sqrt_0.
Qed.

Lemma triangleArea_swap (p0 p1 p2 : R * R * R) :
  triangleArea p0 p2 p1 = triangleArea p0 p1 p2.
Proof.
  unfold triangleArea. rewrite m4_cross_swap.
  destruct (m4_cross (m4_subtractVectors p1 p0) (m4_subtractVectors p2 p0))
    as [[a b] c].
  cbn [fst snd]. now rewrite m4_length_opp.
Qed.

Lemma triangleArea_coincident (p0 p1 : R * R * R) :
  triangleArea p0 p1 p1 = 0.
Proof. unfold triangleArea. rewrite m4_cross_self, m4_length_zero. lra. Qed.

Lemma computeFaceNormalAndArea_cases (p0 p1 p2 : R * R * R) :
  (triangleArea p0 p1 p2 < 1e-14 /\
   computeFaceNormalAndArea p0 p1 p2 = ((0, 0, 1), 0)) \/
  (~ triangleArea p0 p1 p2 < 1e-14 /\
   computeFaceNormalAndArea p0 p1 p2
   = (m4_normalize (m4_cross (m4_subtractVectors p1 p0) (m4_subtractVectors p2 p0)),
      triangleArea p0 p1 p2)).
Proof.
  destruct lit_exact_values as [T _].
  unfold computeFaceNormalAndArea. cbv zeta. rewrite area_exact, T.
  cbn [ltb RNumber]. unfold Rltb.
  destruct (Rlt_dec (triangleArea p0 p1 p2) 1e-14) as [H | H]; [left | right];
    (split; [exact H | reflexivity]).
Qed.

(** X3.  The area returned for a triangle is never negative, and reversing
    the winding (swapping the second and third corner) keeps the area and,
    for a triangle that is not degenerate, turns the normal into its
    opposite; a degenerate triangle keeps the placeholder [(0, 0, 1)]. *)
Theorem face_area_and_winding (p0 p1 p2 : R * R * R) :
  0 <= snd (computeFaceNormalAndArea p0 p1 p2) /\
  snd (computeFaceNormalAndArea p0 p2 p1) = snd (computeFaceNormalAndArea p0 p1 p2) /\
  (triangleArea p0 p1 p2 < 1e-14 ->
   fst (computeFaceNormalAndArea p0 p2 p1) = (0, 0, 1)) /\
  (~ triangleArea p0 p1 p2 < 1e-14 ->
   forall nx ny nz,
     fst (computeFaceNormalAndArea p0 p1 p2) = (nx, ny, nz) ->
     fst (computeFaceNormalAndArea p0 p2 p1) = (- nx, - ny, - nz)).
Proof.
  pose proof (triangleArea_swap p0 p1 p2) as S.
  assert (P : 0 <= triangleArea p0 p1 p2).
  { unfold triangleArea. pose proof (m4_length_nonneg
      (m4_cross (m4_subtractVectors p1 p0) (m4_subtractVectors p2 p0))). lra. }
  destruct (computeFaceNormalAndArea_cases p0 p1 p2) as [[H E] | [H E]];
  destruct (computeFaceNormalAndArea_cases p0 p2 p1) as [[H' E'] | [H' E']];
    rewrite S in H'; try contradiction; rewrite E, E'; cbn [fst snd].
  - repeat split; try lra; try reflexivity.
  - split; [exact P |]. split; [exact S |]. split; [intros N; contradiction |].
    intros _ nx ny nz N. rewrite m4_cross_swap.
    destruct (m4_cross (m4_subtractVectors p1 p0) (m4_subtractVectors p2 p0))
      as [[a b] c].
    cbn [fst snd]. unfold m4_normalize in *. rewrite m4_length_opp.
    injection N as <- <- <-. exact_ops.
    unfold m4_length. exact_ops. f_equal; [f_equal |]; unfold Rdiv; ring.
Qed.

Lemma face_area_and_winding_witness :
  triangleArea (0, 0, 0) (0, 0, 0) (0, 0, 0) < 1e-14 /\
  fst (computeFaceNormalAndArea (0, 0, 0) (0, 0, 0) (0, 0, 0)) = (0, 0, 1).
Proof.
  assert (H : triangleArea (0, 0, 0) (0, 0, 0) (0, 0, 0) < 1e-14)
    by (rewrite triangleArea_coincident; lra).
  split; [exact H |].
  apply (proj1 (proj2 (proj2
           (@face_area_and_winding (0, 0, 0) (0, 0, 0) (0, 0, 0)))) H).
Defined.

End FaceGeometry.

Section Tangents.

Local Open Scope R_scope.

Ltac exact_ops :=
  cbn [ofZ Math_PI add sub mul div ltb Math_abs Math_cos Math_sin Math_sqrt
       fround RNumber].

Lemma tangent_not_fallback (f : R) (t e : R * R * R) :
  1e-14 <= Rabs f ->
  (if Rltb (Rabs f) (lit 1e-14) then t else e) = e.
Proof.
  intros H. destruct lit_exact_values as [T _]. rewrite T.
  unfold Rltb. destruct (Rlt_dec (Rabs f) 1e-14); [lra | reflexivity].
Qed.

Lemma nonzero_factors (du dv : R) :
  1e-14 <= Rabs (du * dv) -> du <> 0 /\ dv <> 0.
Proof.
  intros H. split; intros ->;
    [rewrite Rmult_0_l in H | rewrite Rmult_0_r in H];
    rewrite Rabs_R0 in H; lra.
Qed.

(** The first triangle of a cell: its second corner is straight above the
    first in texture space and its third corner straight to the right. *)
Lemma tangent_lower_triangle (p0 p1 p2 : R * R * R) (a b du dv : R) :
  1e-14 <= Rabs (du * dv) ->
  computeFaceTangent p0 p1 p2 (a, b) (a, b + dv) (a + du, b)
  = m4_scaleVector (m4_subtractVectors p2 p0) (/ du).
Proof.
  intros H. destruct (nonzero_factors _ _ H) as [Hu Hv].
  destruct p0 as [[x0 y0] z0], p1 as [[x1 y1] z1], p2 as [[x2 y2] z2].
  unfold computeFaceTangent, m4_subtractVectors, m4_scaleVector. cbv zeta.
  cbn [fst snd]. exact_ops.
  replace ((a - a) * (b - b) - (b + dv - b) * (a + du - a)) with (- (du * dv)) by ring.
  rewrite tangent_not_fallback by now rewrite Rabs_Ropp.
  destruct lit_exact_values as [_ [_ [L1 _]]]. rewrite !L1.
  f_equal; [f_equal |]; field; auto.
Qed.

(** The second triangle of a cell: its second corner is up and to the left
    of the first in texture space and its third corner straight above. *)
Lemma tangent_upper_triangle (p0 p1 p2 : R * R * R) (a b du dv : R) :
  1e-14 <= Rabs (du * dv) ->
  computeFaceTangent p0 p1 p2 (a, b) (a - du, b + dv) (a, b + dv)
  = m4_scaleVector (m4_subtractVectors p2 p1) (/ du).
Proof.
  intros H. destruct (nonzero_factors _ _ H) as [Hu Hv].
  destruct p0 as [[x0 y0] z0], p1 as [[x1 y1] z1], p2 as [[x2 y2] z2].
  unfold computeFaceTangent, m4_subtractVectors, m4_scaleVector. cbv zeta.
  cbn [fst snd]. exact_ops.
  replace ((a - du - a) * (b + dv - b) - (b + dv - b) * (a - a)) with (- (du * dv)) by ring.
  rewrite tangent_not_fallback by now rewrite Rabs_Ropp.
  destruct lit_exact_values as [_ [_ [L1 _]]]. rewrite !L1.
  f_equal; [f_equal |]; field; auto.
Qed.

(** X4.  For a triangle whose texture coordinates form a right angle along
    the axes, as the two triangles of a lattice cell do, the tangent formula
    gives the edge that runs in the [u] direction divided by its [u] extent,
    provided the texture-space determinant is at least [1e-14] in absolute
    value. *)
Theorem computeFaceTangent_axis_aligned (p0 p1 p2 : R * R * R) (a b du dv : R) :
  1e-14 <= Rabs (du * dv) ->
  computeFaceTangent p0 p1 p2 (a, b) (a, b + dv) (a + du, b)
  = m4_scaleVector (m4_subtractVectors p2 p0) (/ du) /\
  computeFaceTangent p0 p1 p2 (a, b) (a - du, b + dv) (a, b + dv)
  = m4_scaleVector (m4_subtractVectors p2 p1) (/ du).
Proof.
  intros H. split;
    [now apply tangent_lower_triangle | now apply tangent_upper_triangle].
Qed.

Lemma computeFaceTangent_axis_aligned_witness :
  1e-14 <= Rabs (1 * 1) /\
  computeFaceTangent (0, 0, 0) (0, 1, 0) (2, 0, 0) (0, 0) (0, 0 + 1) (0 + 1, 0)
  = m4_scaleVector (m4_subtractVectors (2, 0, 0) (0, 0, 0)) (/ 1).
Proof.
  assert (H : 1e-14 <= Rabs (1 * 1))
    by (rewrite Rmult_1_r, Rabs_R1; lra).
  split; [exact H |].
  apply (proj1 (@computeFaceTangent_axis_aligned
                  (0, 0, 0) (0, 1, 0) (2, 0, 0) 0 0 1 1 H)).
Defined.

(** X5.  When two corners of a triangle have the same texture coordinates
    the tangent is the fallback [(1, 0, 0)], whatever the positions. *)
Theorem computeFaceTangent_fallback (p0 p1 p2 : R * R * R) (uv0 uv1 uv2 : R * R) :
  uv1 = uv0 \/ uv2 = uv0 \/ uv1 = uv2 ->
  computeFaceTangent p0 p1 p2 uv0 uv1 uv2 = (1, 0, 0).
Proof.
  intros H. destruct uv0 as [a0 b0], uv1 as [a1 b1], uv2 as [a2 b2].
  unfold computeFaceTangent. cbv zeta. cbn [fst snd]. exact_ops.
  destruct lit_exact_values as [T [_ [L1 [L0 _]]]]. rewrite T, L1, !L0.
  assert (F : (a1 - a0) * (b2 - b0) - (b1 - b0) * (a2 - a0) = 0).
  { destruct H as [H | [H | H]]; injection H as -> ->; ring. }
  rewrite F, Rabs_R0. unfold Rltb.
  destruct (Rlt_dec 0 1e-14); [reflexivity | lra].
Qed.

Lemma computeFaceTangent_fallback_witness :
  ((0, 1) = (0, 1) \/ (5, 5) = (0, 1) \/ (0, 1) = (5, 5)) /\
  computeFaceTangent (0, 0, 0) (1, 2, 3) (4, 5, 6) (0, 1) (0, 1) (5, 5) = (1, 0, 0).
Proof.
  split; [left; reflexivity |].
  apply (@computeFaceTangent_fallback (0, 0, 0) (1, 2, 3) (4, 5, 6)
           (0, 1) (0, 1) (5, 5)).
  left. reflexivity.
Defined.

End Tangents.

Section MeshTangents.

Local Open Scope R_scope.

Lemma uv_exact (uCount vCount iv iu : Z) :
  (1 <= uCount)%Z -> (1 <= vCount)%Z ->
  (0 <= iv <= vCount)%Z -> (0 <= iu <= uCount)%Z ->
  paramToUV (vAngles vCount) (uAngles uCount) iv iu
  = Some (IZR iu / IZR uCount, IZR iv / IZR vCount).
Proof.
  intros Hu Hv Hiv Hiu. rewrite paramToUV_exact by lia.
  now rewrite uCoord_exact, vCoord_exact by lia.
Qed.

Lemma uv_step (i n : Z) :
  (1 <= n)%Z -> IZR (i + 1) / IZR n = IZR i / IZR n + / IZR n.
Proof.
  intros Hn. assert (IZR n <> 0) by (apply not_0_IZR; lia).
  rewrite plus_IZR. now field.
Qed.

Lemma uv_determinant (uCount vCount : Z) :
  (1 <= uCount)%Z -> (1 <= vCount)%Z -> (uCount * vCount <= 10 ^ 14)%Z ->
  1e-14 <= Rabs (/ IZR uCount * / IZR vCount).
Proof.
  intros Hu Hv H.
  assert (U : 0 < IZR uCount) by (apply IZR_lt; lia).
  assert (V : 0 < IZR vCount) by (apply IZR_lt; lia).
  assert (W : IZR uCount * IZR vCount <= 100000000000000).
  { rewrite <- mult_IZR. apply IZR_le. exact H. }
  rewrite <- Rinv_mult. rewrite Rabs_pos_eq.
  - apply Rle_trans with (/ 100000000000000); [lra |].
    apply Rinv_le_contravar; [nra | exact W].
  - left. apply Rinv_0_lt_compat. nra.
Qed.

(** X6.  On the sampled mesh, with [uCount * vCount <= 10^14], the tangent
    computed for the first triangle of a cell is [uCount] times the bottom
    edge of the cell (from column [iu] to column [iu+1] in row [iv]), and
    the tangent of the second triangle is [uCount] times the top edge. *)
Theorem lattice_tangents (uCount vCount iv iu : Z) :
  (1 <= uCount)%Z -> (1 <= vCount)%Z -> (uCount * vCount <= 10 ^ 14)%Z ->
  (0 <= iv < vCount)%Z -> (0 <= iu < uCount)%Z ->
  exists (pA pB pC pD : R * R * R) (uvA uvB uvC uvD : R * R),
    gridAt uCount vCount iv iu = Some pA /\
    gridAt uCount vCount (iv + 1) iu = Some pB /\
    gridAt uCount vCount iv (iu + 1) = Some pC /\
    gridAt uCount vCount (iv + 1) (iu + 1) = Some pD /\
    paramToUV (vAngles vCount) (uAngles uCount) iv iu = Some uvA /\
    paramToUV (vAngles vCount) (uAngles uCount) (iv + 1) iu = Some uvB /\
    paramToUV (vAngles vCount) (uAngles uCount) iv (iu + 1) = Some uvC /\
    paramToUV (vAngles vCount) (uAngles uCount) (iv + 1) (iu + 1) = Some uvD /\
    computeFaceTangent pA pB pC uvA uvB uvC
    = m4_scaleVector (m4_subtractVectors pC pA) (IZR uCount) /\
    computeFaceTangent pC pB pD uvC uvB uvD
    = m4_scaleVector (m4_subtractVectors pD pB) (IZR uCount).
Proof.
  intros Hu Hv H Hiv Hiu.
  pose proof (uv_determinant Hu Hv H) as D.
  assert (NU : IZR uCount <> 0) by (apply not_0_IZR; lia).
  do 4 eexists. do 4 eexists.
  rewrite !gridAt_exact, !uv_exact by lia.
  do 8 (split; [reflexivity |]).
  rewrite !uv_step by lia.
  set (a := IZR iu / IZR uCount). set (b := IZR iv / IZR vCount).
  split.
  - rewrite tangent_lower_triangle by exact D. now rewrite Rinv_inv.
  - replace a with (a + / IZR uCount - / IZR uCount) at 2 by ring.
    rewrite tangent_upper_triangle by exact D. now rewrite Rinv_inv.
Qed.

Lemma lattice_tangents_witness :
  (1 <= 4)%Z /\ (1 <= 2)%Z /\ (4 * 2 <= 10 ^ 14)%Z /\
  (0 <= 1 < 2)%Z /\ (0 <= 3 < 4)%Z /\
  exists (pA pB pC pD : R * R * R) (uvA uvB uvC uvD : R * R),
    gridAt 4 2 1 3 = Some pA /\
    gridAt 4 2 (1 + 1) 3 = Some pB /\
    gridAt 4 2 1 (3 + 1) = Some pC /\
    gridAt 4 2 (1 + 1) (3 + 1) = Some pD /\
    paramToUV (vAngles 2) (uAngles 4) 1 3 = Some uvA /\
    paramToUV (vAngles 2) (uAngles 4) (1 + 1) 3 = Some uvB /\
    paramToUV (vAngles 2) (uAngles 4) 1 (3 + 1) = Some uvC /\
    paramToUV (vAngles 2) (uAngles 4) (1 + 1) (3 + 1) = Some uvD /\
    computeFaceTangent pA pB pC uvA uvB uvC
    = m4_scaleVector (m4_subtractVectors pC pA) (IZR 4) /\
    computeFaceTangent pC pB pD uvC uvB uvD
    = m4_scaleVector (m4_subtractVectors pD pB) (IZR 4).
Proof.
  split; [lia |]. split; [lia |]. split; [lia |]. split; [lia |]. split; [lia |].
  apply (@lattice_tangents 4 2 1 3); lia.
Defined.

End MeshTangents.

(** ** The pole of the surface *)

Section Pole.

Local Open Scope R_scope.

Lemma nth_error_store_other (A : Type) (arr : list A) (i j : nat) (x : A) :
  i <> j -> nth_error (store arr i x) j = nth_error arr j.
Proof.
  revert i j. induction arr as [| h t IH]; intros [| i] [| j] H; simpl;
    try reflexivity; try contradiction.
  apply IH. lia.
Qed.

Lemma get_set_other (A : Type) (arr : list A) (i j : Z) (x : A) :
  i <> j -> get (set arr i x) j = get arr j.
Proof.
  intros H. unfold get, set.
  destruct (Z.ltb_spec j 0); [reflexivity |].
  destruct (Z.ltb_spec i 0); [reflexivity |].
  apply nth_error_store_other. lia.
Qed.

Lemma surfacePoint_north_pole (u : R) : surfacePoint u (PI / 2) = (0, 0, 1).
Proof.
  unfold surfacePoint. rewrite cos_PI2, sin_PI2. cbv zeta.
  set (X := Rabs (cos (6 * u))).
  replace (1.0 * 0 + 0.24 * (1 - 1) * X) with 0 by lra.
  replace (1.0 * 1) with 1 by lra.
  now rewrite !Rmult_0_l.
Qed.

Lemma gridAt_north_pole (uCount vCount iu : Z) :
  (1 <= vCount)%Z -> (0 <= iu <= uCount)%Z ->
  gridAt uCount vCount vCount iu = Some (0, 0, 1).
Proof.
  intros Hv Hu. rewrite gridAt_exact by lia.
  rewrite vAngleAt_exact by lia.
  assert (IZR vCount <> 0) by (apply not_0_IZR; lia).
  replace ((IZR vCount / IZR vCount - 1 / 2) * PI) with (PI / 2) by now field.
  now rewrite surfacePoint_north_pole.
Qed.

Lemma flat_north_pole (uCount vCount iu : Z) :
  (1 <= vCount)%Z -> (0 <= iu <= uCount)%Z ->
  get (flat (vertexGrid uCount vCount)) (indexOf uCount vCount iu) = Some (0, 0, 1).
Proof.
  intros Hv Hu. rewrite get_flat_vertexGrid by lia.
  rewrite gridVertex_exact, vAngleAt_exact by lia.
  assert (IZR vCount <> 0) by (apply not_0_IZR; lia).
  replace ((IZR vCount / IZR vCount - 1 / 2) * PI) with (PI / 2) by now field.
  now rewrite surfacePoint_north_pole.
Qed.

Lemma accumFace_degenerate (vertices accum : list (R * R * R))
    (iA iB iC : Z) (p0 p1 p2 : R * R * R) :
  length accum = length vertices ->
  get vertices iA = Some p0 -> get vertices iB = Some p1 ->
  get vertices iC = Some p2 ->
  triangleArea p0 p1 p2 < 1e-14 ->
  accumFace vertices (Some accum) (iA, iB, iC) = Some accum.
Proof.
  intros L EA EB EC H.
  destruct (computeFaceNormalAndArea_cases p0 p1 p2) as [[_ E] | [N _]];
    [| contradiction].
  unfold accumFace. rewrite EA, EB, EC, E. cbn [fold_left].
  apply get_range in EA, EB, EC.
  change (0, 0, 1, 0) with ((ofZ 0, ofZ 0, ofZ 1) : R * R * R, ofZ 0 : R).
  rewrite !accumCorner_placeholder by lia. reflexivity.
Qed.

Lemma accumCorner_other (normal : R * R * R) (area : R)
    (accum accum' : list (R * R * R)) (idx j : Z) :
  accumCorner normal area (Some accum) idx = Some accum' ->
  idx <> j -> get accum' j = get accum j.
Proof.
  unfold accumCorner. destruct (get accum idx) as [old |]; [| discriminate].
  intros E H. injection E as <-. now apply get_set_other.
Qed.

Lemma accumFace_other (vertices accum accum' : list (R * R * R))
    (iA iB iC j : Z) :
  accumFace vertices (Some accum) (iA, iB, iC) = Some accum' ->
  iA <> j -> iB <> j -> iC <> j -> get accum' j = get accum j.
Proof.
  unfold accumFace.
  destruct (get vertices iA) as [pA |]; [| discriminate].
  destruct (get vertices iB) as [pB |]; [| discriminate].
  destruct (get vertices iC) as [pC |]; [| discriminate].
  destruct (computeFaceNormalAndArea pA pB pC) as [normal area].
  cbn [fold_left]. intros E HA HB HC.
  destruct (accumCorner normal area (Some accum) iA) as [a1 |] eqn:E1;
    [| discriminate].
  destruct (accumCorner normal area (Some a1) iB) as [a2 |] eqn:E2;
    [| discriminate].
  rewrite (@accumCorner_other _ _ _ _ _ _ E HC), (@accumCorner_other _ _ _ _ _ _ E2 HB).
  exact (@accumCorner_other _ _ _ _ _ _ E1 HA).
Qed.

(** A triangle of the mesh either does not touch the last lattice vertex
    or has its second and third corner on the pole. *)
Lemma faces_last_vertex (uCount vCount iA iB iC : Z) :
  (1 <= uCount)%Z -> (1 <= vCount)%Z ->
  In (iA, iB, iC) (faces uCount vCount) ->
  let last := indexOf uCount vCount uCount in
  (iA <> last /\ iB <> last /\ iC <> last) \/
  (exists iu, (0 <= iu < uCount)%Z /\
      onLattice uCount vCount iA /\
      iB = indexOf uCount vCount iu /\ iC = indexOf uCount vCount (iu + 1)).
Proof.
  intros Hu Hv H last. pose proof (@faces_onLattice _ _ _ H) as [LA _].
  apply In_faces in H. destruct H as [iv [iu [Hiv [Hiu H]]]].
  unfold cellTriangles in H. cbv zeta in H.
  destruct (Z.eq_dec iv (vCount - 1)) as [-> | Nv].
  - destruct H as [H | [H | []]]; injection H as <- <- <-.
    + left. subst last. unfold indexOf. repeat split; nia.
    + right. exists iu. replace (vCount - 1 + 1)%Z with vCount by lia.
      repeat split; try lia. exact LA.
  - left. subst last. unfold indexOf.
    assert (K : ((iv + 1) * (uCount + 1) + (uCount + 1) <= vCount * (uCount + 1))%Z)
      by nia.
    assert (K' : (iv * (uCount + 1) + (uCount + 1) = (iv + 1) * (uCount + 1))%Z)
      by ring.
    destruct H as [H | [H | []]]; injection H as <- <- <-; unfold indexOf;
      repeat split; lia.
Qed.

Lemma accumFace_keeps_last (uCount vCount : Z) (accum accum' : list (R * R * R))
    (t : triangle) :
  (1 <= uCount)%Z -> (1 <= vCount)%Z ->
  In t (faces uCount vCount) ->
  length accum = length (flat (vertexGrid (num := R) uCount vCount)) ->
  accumFace (flat (vertexGrid uCount vCount)) (Some accum) t = Some accum' ->
  get accum' (indexOf uCount vCount uCount) = get accum (indexOf uCount vCount uCount).
Proof.
  intros Hu Hv H L E. destruct t as [[iA iB] iC].
  destruct (@faces_last_vertex _ _ _ _ _ Hu Hv H) as [[NA [NB NC]] | [iu [Hiu [LA [-> ->]]]]].
  - exact (@accumFace_other _ _ _ _ _ _ _ E NA NB NC).
  - destruct (onLattice_vertex (num := R) LA) as [x [y [z GA]]].
    rewrite (@accumFace_degenerate _ accum _ _ _ (x, y, z) (0, 0, 1) (0, 0, 1)) in E.
    + now injection E as <-.
    + exact L.
    + exact GA.
    + apply flat_north_pole; lia.
    + apply flat_north_pole; lia.
    + rewrite triangleArea_coincident. lra.
Qed.

Lemma accumFaces_keep_last (uCount vCount : Z) (fs : list triangle) :
  (1 <= uCount)%Z -> (1 <= vCount)%Z ->
  (forall t, In t fs -> In t (faces uCount vCount)) ->
  forall accum : list (R * R * R),
    length accum = length (flat (vertexGrid (num := R) uCount vCount)) ->
    exists accum',
      fold_left (accumFace (flat (vertexGrid uCount vCount))) fs (Some accum)
      = Some accum' /\
      get accum' (indexOf uCount vCount uCount)
      = get accum (indexOf uCount vCount uCount).
Proof.
  intros Hu Hv. induction fs as [| [[iA iB] iC] fs IH]; intros Hin accum L.
  - exists accum. split; reflexivity.
  - assert (F : In (iA, iB, iC) (faces uCount vCount))
      by (apply Hin; now left).
    destruct (faces_in_grid (num := R) _ _ _ _ _ F) as [HA [HB HC]].
    destruct (@accumFace_ok R _ _ accum iA iB iC L HA HB HC) as [a1 [E1 L1]].
    cbn [fold_left]. rewrite E1.
    destruct (IH (fun t H => Hin t (or_intror H)) a1) as [a2 [E2 G2]];
      [congruence |].
    exists a2. split; [exact E2 |]. rewrite G2.
    exact (@accumFace_keeps_last _ _ _ _ _ Hu Hv F L E1).
Qed.

(** X7.  At every resolution the last row of the grid is a single point,
    [(0, 0, 1)], so the only triangle that touches the last lattice vertex
    is degenerate: the accumulated normal of that vertex is still the zero
    vector when the accumulation ends, and its smoothed normal is
    [m4.normalize] of the zero vector. *)
Theorem last_vertex_unweighted (uCount vCount : Z) :
  (1 <= uCount)%Z -> (1 <= vCount)%Z ->
  (forall iu, (0 <= iu <= uCount)%Z ->
     gridAt uCount vCount vCount iu = Some (0, 0, 1)) /\
  exists accum : list (R * R * R),
    accumNormals (flat (vertexGrid uCount vCount)) (faces uCount vCount)
    = Some accum /\
    get accum (indexOf uCount vCount uCount) = Some (0, 0, 0) /\
    exists nn : list (R * R * R),
      normalizedNormals (flat (vertexGrid uCount vCount)) (faces uCount vCount)
      = Some nn /\
      get nn (indexOf uCount vCount uCount) = Some (m4_normalize (0, 0, 0)).
Proof.
  intros Hu Hv. split; [intros iu Hiu; now apply gridAt_north_pole |].
  unfold normalizedNormals, accumNormals.
  match goal with
  | |- context [fold_left _ _ (Some ?init)] =>
      destruct (@accumFaces_keep_last uCount vCount (faces uCount vCount) Hu Hv
                  (fun t H => H) init (length_map _ _)) as [accum [E G]];
      assert (I : get init (indexOf uCount vCount uCount) = Some (0, 0, 0))
  end.
  { destruct (get_in_range (flat (vertexGrid (num := R) uCount vCount))
                (i := indexOf uCount vCount uCount)) as [p Gp].
    - apply onLattice_in_grid. exists vCount, uCount. repeat split; lia.
    - apply get_Some in Gp. destruct Gp as [P Gp]. apply get_Some.
      split; [exact P |]. rewrite nth_error_map, Gp. reflexivity. }
  exists accum. rewrite E. split; [reflexivity |].
  rewrite I in G. split; [exact G |].
  eexists. split; [reflexivity |].
  apply get_Some in G. destruct G as [P G]. apply get_Some.
  split; [exact P |]. rewrite nth_error_map, G. reflexivity.
Qed.

Lemma last_vertex_unweighted_witness :
  (1 <= 4)%Z /\ (1 <= 2)%Z /\
  exists accum : list (R * R * R),
    accumNormals (flat (vertexGrid 4 2)) (faces 4 2) = Some accum /\
    get accum (indexOf 4 2 4) = Some (0, 0, 0) /\
    exists nn : list (R * R * R),
      normalizedNormals (flat (vertexGrid 4 2)) (faces 4 2) = Some nn /\
      get nn (indexOf 4 2 4) = Some (m4_normalize (0, 0, 0)).
Proof.
  split; [lia |]. split; [lia |].
  apply (@last_vertex_unweighted 4 2); lia.
Defined.

End Pole.

(** ** The marker *)

Section MarkerSphere.

Context {num : Type} {NUM : Number num}.

Lemma generateSphere_quad_eq (center : vec3 num) (radius theta1 theta2 : num)
    (vertices : list num) (j : Z) :
  Marker.generateSphere_quad center radius theta1 theta2 vertices j
  = push vertices (numbersOf (quadCorners center radius theta1 theta2 j)).
Proof.
  unfold Marker.generateSphere_quad, quadCorners. cbv zeta.
  destruct (Marker.sphericalPoint center radius theta1 _) as [[a0 a1] a2].
  destruct (Marker.sphericalPoint center radius theta1 _) as [[b0 b1] b2].
  destruct (Marker.sphericalPoint center radius theta2 _) as [[c0 c1] c2].
  destruct (Marker.sphericalPoint center radius theta2 _) as [[d0 d1] d2].
  unfold push, numbersOf. cbn [flat_map app]. now rewrite <- app_assoc.
Qed.

Lemma flat_map_flat_map (A B C : Type) (f : A -> list B) (g : B -> list C)
    (l : list A) :
  flat_map g (flat_map f l) = flat_map (fun x => flat_map g (f x)) l.
Proof.
  induction l as [| x l IH]; [reflexivity |].
  cbn [flat_map]. now rewrite flat_map_app, IH.
Qed.

Lemma generateSphere_band_eq (center : vec3 num) (radius : num)
    (vertices : list num) (i : Z) :
  Marker.generateSphere_band center radius vertices i
  = push vertices (numbersOf (bandCorners center radius i)).
Proof.
  unfold Marker.generateSphere_band, bandCorners. cbv zeta.
  rewrite (fold_left_ext _ (fun a j => push a
             (numbersOf (quadCorners center radius
                           (div (mul (ofZ i) Math_PI) (ofZ 20))
                           (div (mul (ofZ (i + 1)) Math_PI) (ofZ 20)) j))))
    by (intros a j; apply generateSphere_quad_eq).
  rewrite fold_left_push. unfold push, numbersOf. f_equal.
  now rewrite flat_map_flat_map.
Qed.

Lemma generateSphere_eq (center : vec3 num) (radius : num) :
  Marker.generateSphere center radius
  = pointNumbers (sphereCorners center radius).
Proof.
  unfold Marker.generateSphere, Marker.Float32Array_from, pointNumbers. cbv zeta.
  rewrite (fold_left_ext _ (fun a i => push a
             (numbersOf (bandCorners center radius i))))
    by (intros a i; apply generateSphere_band_eq).
  rewrite fold_left_push. cbn [app]. f_equal.
  unfold sphereCorners, numbersOf. now rewrite flat_map_flat_map.
Qed.

Lemma length_sphereCorners (center : vec3 num) (radius : num) :
  length (sphereCorners center radius) = 2400%nat.
Proof.
  unfold sphereCorners.
  rewrite (@length_flat_map_const _ _ _ 120%nat); [reflexivity |].
  intros i _. unfold bandCorners. cbv zeta.
  now rewrite (@length_flat_map_const _ _ _ 6%nat).
Qed.

Lemma length_pointNumbers (pts : list (vec3 num)) :
  length (pointNumbers pts) = (3 * length pts)%nat.
Proof.
  unfold pointNumbers, numbersOf. rewrite length_map.
  apply length_flat_map_const. intros [[x y] z] _. reflexivity.
Qed.

Lemma get_pointNumbers (pts : list (vec3 num)) (k : Z) (x y z : num) :
  get pts k = Some (x, y, z) ->
  get (pointNumbers pts) (3 * k) = Some (fround x) /\
  get (pointNumbers pts) (3 * k + 1) = Some (fround y) /\
  get (pointNumbers pts) (3 * k + 2) = Some (fround z).
Proof.
  intros G. apply get_Some in G. destruct G as [P G].
  assert (E : forall j : nat, (j < 3)%nat ->
            nth_error (pointNumbers pts) (3 * Z.to_nat k + j)
            = nth_error [fround x; fround y; fround z] j).
  { intros j Hj. unfold pointNumbers, numbersOf. rewrite nth_error_map.
    assert (K : forall p : vec3 num, In p pts ->
              length (let '(a, b, c) := p in [a; b; c]) = 3%nat)
      by (intros [[a b] c] _; reflexivity).
    rewrite (@nth_error_flat_map_const _ _ _ 3%nat pts K _ _ _ G Hj).
    now rewrite <- nth_error_map. }
  repeat split; apply get_Some; (split; [lia |]).
  - replace (Z.to_nat (3 * k)) with (3 * Z.to_nat k + 0)%nat by lia.
    now rewrite E by lia.
  - replace (Z.to_nat (3 * k + 1)) with (3 * Z.to_nat k + 1)%nat by lia.
    now rewrite E by lia.
  - replace (Z.to_nat (3 * k + 2)) with (3 * Z.to_nat k + 2)%nat by lia.
    now rewrite E by lia.
Qed.

(** X8.  Whatever the center and the radius, [generateSphere] returns
    7200 numbers (two triangles for each of the 20 by 20 quads), and the
    vertex count that [PointModel.BufferData] derives from it is 2400. *)
Theorem generateSphere_size (center : vec3 num) (radius : num) :
  Z.of_nat (length (Marker.generateSphere center radius)) = 7200%Z /\
  Marker.PointModel_count (Marker.generateSphere center radius) == 2400.
Proof.
  rewrite generateSphere_eq, length_pointNumbers, length_sphereCorners.
  split; [reflexivity |].
  unfold Marker.PointModel_count.
  rewrite length_pointNumbers, length_sphereCorners. reflexivity.
Qed.

End MarkerSphere.

Section MarkerExact.

Local Open Scope R_scope.

Lemma sphericalPoint_onSphere (center : R * R * R) (r theta phi : R) :
  onSphere center r (Marker.sphericalPoint center r theta phi).
Proof.
  destruct center as [[cx cy] cz]. unfold onSphere, Marker.sphericalPoint.
  cbn [add mul Math_sin Math_cos RNumber].
  pose proof (sin2_cos2 theta) as T. pose proof (sin2_cos2 phi) as P.
  unfold Rsqr in T, P.
  set (st := sin theta) in *. set (ct := cos theta) in *.
  set (sp := sin phi) in *. set (cp := cos phi) in *.
  replace ((r * st * cp + cx - cx) * (r * st * cp + cx - cx)
           + (r * ct + cy - cy) * (r * ct + cy - cy)
           + (r * st * sp + cz - cz) * (r * st * sp + cz - cz))
    with (r * r * (st * st * (sp * sp + cp * cp) + ct * ct)) by ring.
  rewrite P, Rmult_1_r, T. ring.
Qed.

Lemma sphereCorners_onSphere (center : R * R * R) (r : R) :
  Forall (onSphere center r) (sphereCorners center r).
Proof.
  apply Forall_forall. intros p H. unfold sphereCorners in H.
  apply in_flat_map in H. destruct H as [i [_ H]].
  unfold bandCorners in H. cbv zeta in H.
  apply in_flat_map in H. destruct H as [j [_ H]].
  unfold quadCorners in H. cbv zeta in H.
  repeat (destruct H as [<- | H]; [apply sphericalPoint_onSphere |]).
  destruct H.
Qed.

(** X9.  In exact arithmetic every vertex that [generateSphere] writes lies
    on the sphere of the given radius around the given center: for each of
    the 2400 vertices [k], the three numbers at [3k], [3k+1], [3k+2] are a
    point at distance [radius] from [center]. *)
Theorem generateSphere_on_sphere (center : R * R * R) (radius : R) (k : Z) :
  (0 <= k < 2400)%Z ->
  exists x y z : R,
    get (Marker.generateSphere center radius) (3 * k) = Some x /\
    get (Marker.generateSphere center radius) (3 * k + 1) = Some y /\
    get (Marker.generateSphere center radius) (3 * k + 2) = Some z /\
    onSphere center radius (x, y, z).
Proof.
  intros Hk. rewrite generateSphere_eq.
  destruct (get_in_range (sphereCorners center radius) (i := k))
    as [[[x y] z] G].
  { rewrite length_sphereCorners. lia. }
  exists x, y, z.
  destruct (get_pointNumbers _ _ G) as [G0 [G1 G2]].
  cbn [fround RNumber] in G0, G1, G2.
  repeat (split; [assumption |]).
  pose proof (sphereCorners_onSphere center radius) as F.
  rewrite Forall_forall in F. apply F.
  apply get_Some in G. destruct G as [_ G]. eapply nth_error_In. exact G.
Qed.

Lemma generateSphere_on_sphere_witness :
  (0 <= 7 < 2400)%Z /\
  exists x y z : R,
    get (Marker.generateSphere (1, 2, 3) 0.1) (3 * 7) = Some x /\
    get (Marker.generateSphere (1, 2, 3) 0.1) (3 * 7 + 1) = Some y /\
    get (Marker.generateSphere (1, 2, 3) 0.1) (3 * 7 + 2) = Some z /\
    onSphere (1, 2, 3) 0.1 (x, y, z).
Proof.
  split; [lia |].
  apply (@generateSphere_on_sphere (1, 2, 3) 0.1 7). lia.
Defined.

End MarkerExact.

Module MarkerKeys.

Import Stdlib.Strings.String.

Local Open Scope R_scope.

Example toLowerCase_word : Marker.toLowerCase "ArrowUp" = "arrowup"%string.
Proof. reflexivity. Qed.

Lemma keydown_cases (s : Marker.MarkerState) (key : String.string) :
  Marker.keydown s key = Marker.keydown s "a" \/
  Marker.keydown s key = Marker.keydown s "d" \/
  Marker.keydown s key = Marker.keydown s "w" \/
  Marker.keydown s key = Marker.keydown s "s" \/
  Marker.keydown s key = s.
Proof.
  remember (Marker.keydown s key) as r eqn:Er.
  unfold Marker.keydown in Er. cbv zeta in Er.
  destruct (String.eqb (Marker.toLowerCase key) "a");
    [left; subst r; reflexivity |].
  destruct (String.eqb (Marker.toLowerCase key) "d");
    [right; left; subst r; reflexivity |].
  destruct (String.eqb (Marker.toLowerCase key) "w");
    [right; right; left; subst r; reflexivity |].
  destruct (String.eqb (Marker.toLowerCase key) "s");
    [right; right; right; left | right; right; right; right];
    subst r; reflexivity.
Qed.

Lemma keydown_a (s : Marker.MarkerState) :
  Marker.keydown s "a"
  = {| Marker.paramU :=
         if Rltb (Marker.paramU s - 0.05) 0
         then Marker.paramU s - 0.05 + 2.0 * PI else Marker.paramU s - 0.05;
       Marker.paramV := Marker.paramV s |}.
Proof. reflexivity. Qed.

Lemma keydown_d (s : Marker.MarkerState) :
  Marker.keydown s "d"
  = {| Marker.paramU :=
         if Rltb (2.0 * PI) (Marker.paramU s + 0.05)
         then Marker.paramU s + 0.05 - 2.0 * PI else Marker.paramU s + 0.05;
       Marker.paramV := Marker.paramV s |}.
Proof. reflexivity. Qed.

Lemma keydown_w (s : Marker.MarkerState) :
  Marker.keydown s "w"
  = {| Marker.paramU := Marker.paramU s;
       Marker.paramV :=
         if Rltb (PI / 2) (Marker.paramV s + 0.05)
         then PI / 2 else Marker.paramV s + 0.05 |}.
Proof. reflexivity. Qed.

Lemma keydown_s (s : Marker.MarkerState) :
  Marker.keydown s "s"
  = {| Marker.paramU := Marker.paramU s;
       Marker.paramV :=
         if Rltb (Marker.paramV s - 0.05) (- PI / 2)
         then - PI / 2 else Marker.paramV s - 0.05 |}.
Proof. reflexivity. Qed.

Lemma keydown_upper_case (s : Marker.MarkerState) :
  Marker.keydown s "A" = Marker.keydown s "a" /\
  Marker.keydown s "D" = Marker.keydown s "d" /\
  Marker.keydown s "W" = Marker.keydown s "w" /\
  Marker.keydown s "S" = Marker.keydown s "s".
Proof. repeat split; reflexivity. Qed.

Ltac split_Rltb :=
  unfold Rltb;
  repeat match goal with
         | |- context [Rlt_dec ?x ?y] =>
             lazymatch x with
             | context [Rlt_dec _ _] => fail
             | _ => lazymatch y with
                    | context [Rlt_dec _ _] => fail
                    | _ => destruct (Rlt_dec x y)
                    end
             end
         end.

Lemma keydown_keeps_range (s : Marker.MarkerState) (key : String.string) :
  inParameterRange s -> inParameterRange (Marker.keydown s key).
Proof.
  intros [[U0 U1] [V0 V1]]. pose proof PI2_1 as P.
  destruct (keydown_cases s key) as [E | [E | [E | [E | E]]]]; rewrite E;
    [rewrite keydown_a | rewrite keydown_d | rewrite keydown_w
     | rewrite keydown_s | ];
    unfold inParameterRange; cbn [Marker.paramU Marker.paramV];
    split_Rltb; lra.
Qed.

Lemma keys_keep_range (keys : list String.string) (s : Marker.MarkerState) :
  inParameterRange s -> inParameterRange (fold_left Marker.keydown keys s).
Proof.
  revert s. induction keys as [| key keys IH]; intros s H; [exact H |].
  cbn [fold_left]. apply IH. now apply keydown_keeps_range.
Qed.

Lemma texCoord_in_unit_square (s : Marker.MarkerState) :
  inParameterRange s ->
  let '(texU, texV) := Marker.paramToTexCoord (Marker.paramU s) (Marker.paramV s) in
  0 <= texU <= 1 /\ 0 <= texV <= 1.
Proof.
  intros [[U0 U1] [V0 V1]]. unfold Marker.paramToTexCoord. cbv zeta.
  destruct lit_exact_values as [_ [_ [_ [_ [L2 _]]]]].
  cbn [add mul div ofZ Math_PI RNumber]. rewrite L2.
  pose proof PI_RGT_0 as P.
  assert (I2 : 0 < / (2 * PI)) by (apply Rinv_0_lt_compat; lra).
  assert (I1 : 0 < / PI) by (apply Rinv_0_lt_compat; lra).
  assert (E2 : 2 * PI * / (2 * PI) = 1) by (apply Rinv_r; lra).
  assert (E1 : PI * / PI = 1) by (apply Rinv_r; lra).
  unfold Rdiv. repeat split; nra.
Qed.

(** X10.  Whatever keys are pressed, starting from the initial position
    [(pi, 0)], the marker parameters stay in the rectangle
    [0 <= u <= 2 pi], [-pi/2 <= v <= pi/2], and the texture coordinate
    computed from them by [paramToTexCoord] stays in the unit square. *)
Theorem marker_stays_in_range (keys : list String.string) :
  let s := fold_left Marker.keydown keys Marker.initialState in
  inParameterRange s /\
  let '(texU, texV) := Marker.paramToTexCoord (Marker.paramU s) (Marker.paramV s) in
  0 <= texU <= 1 /\ 0 <= texV <= 1.
Proof.
  assert (I : inParameterRange Marker.initialState).
  { unfold inParameterRange, Marker.initialState.
    cbn [Marker.paramU Marker.paramV]. pose proof PI_RGT_0. lra. }
  pose proof (keys_keep_range keys I) as K.
  cbv zeta. split; [exact K |]. now apply texCoord_in_unit_square.
Qed.

(** X11.  Opposite keys undo each other away from the limits: [a] then [d]
    gives back the position when [0 < u <= 2 pi], [d] then [a] when
    [0 <= u < 2 pi], [w] then [s] when [v + 0.05 <= pi/2] and [s] then [w]
    when [-pi/2 <= v - 0.05]; at [u = 0], [a] then [d] ends at [u = 2 pi],
    and at [v = pi/2], [w] then [s] ends at [pi/2 - 0.05]. *)
Theorem opposite_keys (s : Marker.MarkerState) :
  inParameterRange s ->
  (0 < Marker.paramU s ->
   Marker.keydown (Marker.keydown s "a") "d" = s) /\
  (Marker.paramU s < 2 * PI ->
   Marker.keydown (Marker.keydown s "d") "a" = s) /\
  (Marker.paramV s + 0.05 <= PI / 2 ->
   Marker.keydown (Marker.keydown s "w") "s" = s) /\
  (- (PI / 2) <= Marker.paramV s - 0.05 ->
   Marker.keydown (Marker.keydown s "s") "w" = s) /\
  (Marker.paramU s = 0 ->
   Marker.paramU (Marker.keydown (Marker.keydown s "a") "d") = 2 * PI) /\
  (Marker.paramV s = PI / 2 ->
   Marker.paramV (Marker.keydown (Marker.keydown s "w") "s") = PI / 2 - 0.05).
Proof.
  intros [[U0 U1] [V0 V1]]. pose proof PI2_1 as P. destruct s as [u v].
  cbn [Marker.paramU Marker.paramV] in *.
  repeat split; intros H;
    rewrite ?keydown_a, ?keydown_d, ?keydown_w, ?keydown_s;
    cbn [Marker.paramU Marker.paramV];
    rewrite ?keydown_a, ?keydown_d, ?keydown_w, ?keydown_s;
    cbn [Marker.paramU Marker.paramV];
    split_Rltb; try lra; f_equal; lra.
Qed.

Lemma opposite_keys_witness :
  inParameterRange Marker.initialState /\
  Marker.keydown (Marker.keydown Marker.initialState "a") "d" = Marker.initialState.
Proof.
  assert (I : inParameterRange Marker.initialState).
  { unfold inParameterRange, Marker.initialState.
    cbn [Marker.paramU Marker.paramV]. pose proof PI_RGT_0. lra. }
  split; [exact I |].
  apply (proj1 (@opposite_keys Marker.initialState I)).
  unfold Marker.initialState. cbn [Marker.paramU]. exact PI_RGT_0.
Defined.

(** X12.  At the angles of a lattice point the marker's [paramToTexCoord]
    and the surface's [paramToUV] give the same texture coordinate. *)
Theorem marker_texcoord_matches_surface (uCount vCount iv iu : Z) :
  (0 <= iv <= vCount)%Z -> (0 <= iu <= uCount)%Z ->
  paramToUV (vAngles vCount) (uAngles uCount) iv iu
  = Some (Marker.paramToTexCoord (uAngleAt uCount iu) (vAngleAt vCount iv)).
Proof.
  intros Hv Hu. unfold paramToUV, Marker.paramToTexCoord.
  rewrite get_vAngles, get_uAngles by lia. cbv zeta.
  destruct lit_exact_values as [_ [L5 _]].
  cbn [add mul div ofZ Math_PI RNumber]. rewrite L5.
  do 2 f_equal. f_equal. lra.
Qed.

Lemma marker_texcoord_matches_surface_witness :
  (0 <= 1 <= 2)%Z /\ (0 <= 3 <= 4)%Z /\
  paramToUV (vAngles 2) (uAngles 4) 1 3
  = Some (Marker.paramToTexCoord (uAngleAt 4 3) (vAngleAt 2 1)).
Proof.
  split; [lia |]. split; [lia |].
  apply (@marker_texcoord_matches_surface 4 2 1 3); lia.
Defined.

End MarkerKeys.


(** ** The wireframe program *)

Section WireframeFacts.

Context {num : Type} {NUM : Number num}.

Lemma flat_map_singleton (A B : Type) (f : A -> B) (l : list A) :
  flat_map (fun x => [f x]) l = map f l.
Proof. induction l as [| x l IH]; [reflexivity | cbn; now rewrite IH]. Qed.

Lemma vVerticesArr_eq (n : Z) :
  Wireframe.vVerticesArr n
  = map (fun i => Wireframe.deg2rad
                    (add (ofZ (-90)) (mul (ofZ i) (div (sub (ofZ 90) (ofZ (-90))) (ofZ n)))))
      (upto n)
    ++ [Wireframe.deg2rad (ofZ 90)].
Proof.
  unfold Wireframe.vVerticesArr. cbv zeta.
  rewrite fold_left_push, flat_map_singleton. reflexivity.
Qed.

Lemma uVerticesArr_eq (n : Z) :
  Wireframe.uVerticesArr n
  = map (fun i => Wireframe.deg2rad
                    (add (ofZ 0) (mul (ofZ i) (div (sub (ofZ 360) (ofZ 0)) (ofZ n)))))
      (upto n)
    ++ [Wireframe.deg2rad (ofZ 360)].
Proof.
  unfold Wireframe.uVerticesArr. cbv zeta.
  rewrite fold_left_push, flat_map_singleton. reflexivity.
Qed.

Lemma length_vVerticesArr (n : Z) :
  length (Wireframe.vVerticesArr n) = (Z.to_nat n + 1)%nat.
Proof. rewrite vVerticesArr_eq, length_app, length_map, length_upto. reflexivity. Qed.

Lemma length_uVerticesArr (n : Z) :
  length (Wireframe.uVerticesArr n) = (Z.to_nat n + 1)%nat.
Proof. rewrite uVerticesArr_eq, length_app, length_map, length_upto. reflexivity. Qed.

Lemma CreateSurfaceData_wireframe_eq (uCount vCount : Z) :
  Wireframe.CreateSurfaceData uCount vCount
  = {| Wireframe.uPolylines :=
         map (fun vRad => flat_map (fun uRad => Wireframe.sample vRad uRad)
                            (Wireframe.uVerticesArr uCount))
           (Wireframe.vVerticesArr vCount);
       Wireframe.vPolylines :=
         map (fun uRad => flat_map (fun vRad => Wireframe.sample vRad uRad)
                            (Wireframe.vVerticesArr vCount))
           (Wireframe.uVerticesArr uCount) |}.
Proof.
  unfold Wireframe.CreateSurfaceData. cbv zeta. f_equal.
  - rewrite (fold_left_ext _ (fun polylines vRad => push polylines
               [flat_map (fun uRad => Wireframe.sample vRad uRad)
                  (Wireframe.uVerticesArr uCount)]))
      by (intros a x; now rewrite fold_left_push).
    now rewrite fold_left_push, flat_map_singleton.
  - rewrite (fold_left_ext _ (fun polylines uRad => push polylines
               [flat_map (fun vRad => Wireframe.sample vRad uRad)
                  (Wireframe.vVerticesArr vCount)]))
      by (intros a x; now rewrite fold_left_push).
    now rewrite fold_left_push, flat_map_singleton.
Qed.

Lemma get_map (A B : Type) (f : A -> B) (l : list A) (i : Z) :
  get (map f l) i = option_map f (get l i).
Proof.
  unfold get. destruct (i <? 0)%Z; [reflexivity | apply nth_error_map].
Qed.

Lemma get_samples (A : Type) (g : A -> list num) (l : list A) (i c : Z) (x : A) :
  (forall y, length (g y) = 3%nat) ->
  get l i = Some x -> (0 <= c < 3)%Z ->
  get (flat_map g l) (3 * i + c) = get (g x) c.
Proof.
  intros K G Hc. apply get_Some in G. destruct G as [P G].
  unfold get. destruct (Z.ltb_spec (3 * i + c) 0); [lia |].
  destruct (Z.ltb_spec c 0); [lia |].
  replace (Z.to_nat (3 * i + c)) with (3 * Z.to_nat i + Z.to_nat c)%nat by lia.
  apply (@nth_error_flat_map_const _ _ g 3%nat l (fun y _ => K y) _ _ _ G). lia.
Qed.

(** X13.  The wireframe model has one [u] polyline per sampled [v] and one
    [v] polyline per sampled [u], each with three numbers per sample, and
    the two families are transposes of one another: sample [iu] of
    [u] polyline [iv] is sample [iv] of [v] polyline [iu].  A count below 1
    still leaves the one angle that is pushed after the loop. *)
Theorem wireframe_polylines (uCount vCount : Z) :
  let m := Wireframe.CreateSurfaceData uCount vCount in
  length (Wireframe.uPolylines m) = (Z.to_nat vCount + 1)%nat /\
  length (Wireframe.vPolylines m) = (Z.to_nat uCount + 1)%nat /\
  Forall (fun p => length p = (3 * (Z.to_nat uCount + 1))%nat) (Wireframe.uPolylines m) /\
  Forall (fun p => length p = (3 * (Z.to_nat vCount + 1))%nat) (Wireframe.vPolylines m) /\
  forall iv iu c : Z,
    (0 <= iv <= Z.max 0 vCount)%Z -> (0 <= iu <= Z.max 0 uCount)%Z ->
    (0 <= c < 3)%Z ->
    exists (up vp : list num) (x : num),
      get (Wireframe.uPolylines m) iv = Some up /\
      get (Wireframe.vPolylines m) iu = Some vp /\
      get up (3 * iu + c) = Some x /\
      get vp (3 * iv + c) = Some x.
Proof.
  cbv zeta. rewrite CreateSurfaceData_wireframe_eq.
  cbn [Wireframe.uPolylines Wireframe.vPolylines].
  assert (K : forall a b : num, length (Wireframe.sample a b) = 3%nat)
    by reflexivity.
  rewrite !length_map, length_vVerticesArr, length_uVerticesArr.
  split; [reflexivity |]. split; [reflexivity |].
  split; [| split].
  - apply Forall_forall. intros p H. apply in_map_iff in H.
    destruct H as [vRad [<- _]].
    rewrite (@length_flat_map_const _ _ _ 3%nat) by (intros; apply K).
    now rewrite length_uVerticesArr.
  - apply Forall_forall. intros p H. apply in_map_iff in H.
    destruct H as [uRad [<- _]].
    rewrite (@length_flat_map_const _ _ _ 3%nat) by (intros; apply K).
    now rewrite length_vVerticesArr.
  - intros iv iu c Hv Hu Hc.
    destruct (get_in_range (Wireframe.vVerticesArr vCount) (i := iv))
      as [vRad Gv]; [rewrite length_vVerticesArr; lia |].
    destruct (get_in_range (Wireframe.uVerticesArr uCount) (i := iu))
      as [uRad Gu]; [rewrite length_uVerticesArr; lia |].
    destruct (get_in_range (Wireframe.sample vRad uRad) (i := c))
      as [x Gx]; [rewrite K; lia |].
    exists (flat_map (fun uRad => Wireframe.sample vRad uRad)
              (Wireframe.uVerticesArr uCount)),
           (flat_map (fun vRad => Wireframe.sample vRad uRad)
              (Wireframe.vVerticesArr vCount)), x.
    rewrite 2!get_map, Gv, Gu. cbn [option_map].
    split; [reflexivity |]. split; [reflexivity |].
    rewrite (@get_samples _ (fun uRad => Wireframe.sample vRad uRad) _ _ _ _
               (K vRad) Gu Hc).
    rewrite (@get_samples _ (fun vRad => Wireframe.sample vRad uRad) _ _ _ _
               (fun y => K y uRad) Gv Hc).
    auto.
Qed.

Lemma contiguous_from (a b : Q) (rs : list Wireframe.Range) (t : Q) :
  a == b -> contiguous a rs t -> contiguous b rs t.
Proof.
  revert a b. induction rs as [| r rs IH]; intros a b E H; cbn in *.
  - now rewrite <- E.
  - destruct H as [S H]. split; [now rewrite <- E |].
    apply (IH (a + Wireframe.count r)%Q); [now rewrite E | exact H].
Qed.

Lemma contiguous_app (a b c : Q) (rs rs' : list Wireframe.Range) :
  contiguous a rs b -> contiguous b rs' c -> contiguous a (rs ++ rs') c.
Proof.
  revert a. induction rs as [| r rs IH]; intros a H H'; cbn in *.
  - apply (@contiguous_from b); [now symmetry | exact H'].
  - destruct H as [S H]. split; [exact S | now apply IH].
Qed.

Lemma contiguous_rangesFrom (n : nat) (ps : list (list num)) :
  contiguous (inject_Z (Z.of_nat n) / 3) (rangesFrom n ps)
    (inject_Z (Z.of_nat (n + length (concat ps))) / 3).
Proof.
  revert n. induction ps as [| p ps IH]; intros n; cbn [rangesFrom contiguous concat].
  - now rewrite Nat.add_0_r.
  - cbn [Wireframe.start Wireframe.count]. split; [reflexivity |].
    rewrite length_app, Nat.add_assoc.
    apply (@contiguous_from (inject_Z (Z.of_nat (n + length p)) / 3)).
    + rewrite Nat2Z.inj_add, inject_Z_plus. field.
    + apply IH.
Qed.

Lemma fold_addPolyline (ps : list (list num)) :
  forall (vertices : list num) (ranges : list Wireframe.Range),
    fold_left Wireframe.addPolyline ps (vertices, ranges)
    = (vertices ++ concat ps, ranges ++ rangesFrom (length vertices) ps).
Proof.
  induction ps as [| p ps IH]; intros vertices ranges; cbn [fold_left concat rangesFrom].
  - now rewrite !app_nil_r.
  - unfold Wireframe.addPolyline at 2. unfold push. rewrite IH.
    rewrite length_app, <- !app_assoc. reflexivity.
Qed.

Lemma BufferData_eq (m : Wireframe.WireframeModel num) :
  Wireframe.BufferData m
  = {| Wireframe.vertices :=
         map fround (concat (Wireframe.uPolylines m) ++ concat (Wireframe.vPolylines m));
       Wireframe.uPolylineRanges := rangesFrom 0 (Wireframe.uPolylines m);
       Wireframe.vPolylineRanges :=
         rangesFrom (length (concat (Wireframe.uPolylines m))) (Wireframe.vPolylines m) |}.
Proof.
  unfold Wireframe.BufferData. cbv zeta. rewrite fold_addPolyline.
  cbn [app length]. rewrite fold_addPolyline. reflexivity.
Qed.

(** X14.  [Model.BufferData] of the wireframe program puts all polylines
    into one array, [u] polylines first, and the draw ranges it records
    tile that array in order: the first range starts at 0, each range
    starts where the one before ends, the [v] ranges go on where the [u]
    ranges stop, and the last range ends at a third of the array length. *)
Theorem wireframe_ranges_tile (m : Wireframe.WireframeModel num) :
  let b := Wireframe.BufferData m in
  Wireframe.vertices b
  = map fround (concat (Wireframe.uPolylines m ++ Wireframe.vPolylines m)) /\
  length (Wireframe.uPolylineRanges b) = length (Wireframe.uPolylines m) /\
  length (Wireframe.vPolylineRanges b) = length (Wireframe.vPolylines m) /\
  contiguous 0
    (Wireframe.uPolylineRanges b ++ Wireframe.vPolylineRanges b)
    (inject_Z (Z.of_nat (length (Wireframe.vertices b))) / 3).
Proof.
  cbv zeta. rewrite BufferData_eq.
  cbn [Wireframe.vertices Wireframe.uPolylineRanges Wireframe.vPolylineRanges].
  assert (L : forall (n : nat) (ps : list (list num)),
            length (rangesFrom n ps) = length ps).
  { intros n ps. revert n. induction ps as [| p ps IH]; intros n;
      [reflexivity | cbn; now rewrite IH]. }
  rewrite concat_app, !L, length_map, length_app.
  repeat split.
  apply (@contiguous_app _
           (inject_Z (Z.of_nat (length (concat (Wireframe.uPolylines m)))) / 3)).
  - apply (@contiguous_from (inject_Z (Z.of_nat 0) / 3)); [reflexivity |].
    apply (contiguous_rangesFrom 0).
  - apply contiguous_rangesFrom.
Qed.

End WireframeFacts.

Lemma wireframe_polylines_witness :
  (0 <= 1 <= Z.max 0 2)%Z /\ (0 <= 3 <= Z.max 0 4)%Z /\ (0 <= 2 < 3)%Z /\
  exists (up vp : list R) (x : R),
    get (Wireframe.uPolylines (Wireframe.CreateSurfaceData 4 2)) 1 = Some up /\
    get (Wireframe.vPolylines (Wireframe.CreateSurfaceData 4 2)) 3 = Some vp /\
    get up (3 * 3 + 2) = Some x /\
    get vp (3 * 1 + 2) = Some x.
Proof.
  split; [lia |]. split; [lia |]. split; [lia |].
  apply (proj2 (proj2 (proj2 (proj2 (@wireframe_polylines R RNumber 4 2)))));
    lia.
Defined.


Section WireframeExact.

Local Open Scope R_scope.

Lemma wireframe_deg2rad_exact (angle : R) :
  Wireframe.deg2rad angle = deg2rad angle.
Proof.
  unfold Wireframe.deg2rad, deg2rad.
  destruct lit_exact_values as [_ [_ [_ [_ [_ [_ L]]]]]]. rewrite L. reflexivity.
Qed.

Lemma get_app_last (A : Type) (l : list A) (x : A) (i : Z) :
  i = Z.of_nat (length l) -> get (l ++ [x]) i = Some x.
Proof.
  intros ->. rewrite get_of_nat, nth_error_app2, Nat.sub_diag by lia. reflexivity.
Qed.

Lemma get_app_front (A : Type) (l l' : list A) (i : Z) :
  (0 <= i < Z.of_nat (length l))%Z -> get (l ++ l') i = get l i.
Proof.
  intros H. unfold get. destruct (Z.ltb_spec i 0); [lia |].
  apply nth_error_app1. lia.
Qed.

Lemma get_vVerticesArr (vCount iv : Z) :
  (1 <= vCount)%Z -> (0 <= iv <= vCount)%Z ->
  get (Wireframe.vVerticesArr vCount) iv = Some (vAngleAt vCount iv).
Proof.
  intros Hv Hiv. rewrite vVerticesArr_eq.
  assert (N : IZR vCount <> 0) by (apply not_0_IZR; lia).
  destruct (Z.eq_dec iv vCount) as [-> | Ne].
  - rewrite get_app_last by (rewrite length_map, length_upto; lia).
    f_equal. rewrite wireframe_deg2rad_exact. unfold vAngleAt, stepV.
    f_equal. cbn [ofZ add sub mul div RNumber]. now field.
  - rewrite get_app_front by (rewrite length_map, length_upto; lia).
    rewrite get_map, get_upto by lia. cbn [option_map].
    now rewrite wireframe_deg2rad_exact.
Qed.

Lemma get_uVerticesArr (uCount iu : Z) :
  (1 <= uCount)%Z -> (0 <= iu <= uCount)%Z ->
  get (Wireframe.uVerticesArr uCount) iu = Some (uAngleAt uCount iu).
Proof.
  intros Hu Hiu. rewrite uVerticesArr_eq.
  assert (N : IZR uCount <> 0) by (apply not_0_IZR; lia).
  destruct (Z.eq_dec iu uCount) as [-> | Ne].
  - rewrite get_app_last by (rewrite length_map, length_upto; lia).
    f_equal. rewrite wireframe_deg2rad_exact. unfold uAngleAt, stepU.
    f_equal. cbn [ofZ add sub mul div RNumber]. now field.
  - rewrite get_app_front by (rewrite length_map, length_upto; lia).
    rewrite get_map, get_upto by lia. cbn [option_map].
    now rewrite wireframe_deg2rad_exact.
Qed.

Lemma sample_exact (vRad uRad : R) :
  Wireframe.sample vRad uRad
  = let '(x, y, z) := gridVertex vRad uRad in [x; y; z].
Proof.
  unfold Wireframe.sample, gridVertex. cbv zeta.
  destruct lit_exact_values as [_ [_ [L1 _]]]. rewrite !L1. reflexivity.
Qed.

(** X15.  For [uCount >= 1] and [vCount >= 1] the wireframe and the solid
    surface sample the same lattice: the three numbers of sample [iu] of
    the [u] polyline [iv] are the grid point [(iv, iu)] of the solid
    surface. *)
Theorem wireframe_matches_surface (uCount vCount iv iu : Z) :
  (1 <= uCount)%Z -> (1 <= vCount)%Z ->
  (0 <= iv <= vCount)%Z -> (0 <= iu <= uCount)%Z ->
  exists (x y z : R) (up : list R),
    gridAt uCount vCount iv iu = Some (x, y, z) /\
    get (Wireframe.uPolylines (Wireframe.CreateSurfaceData uCount vCount)) iv
    = Some up /\
    get up (3 * iu) = Some x /\
    get up (3 * iu + 1) = Some y /\
    get up (3 * iu + 2) = Some z.
Proof.
  intros Hu Hv Hiv Hiu.
  pose proof (get_vVerticesArr Hv Hiv) as Gv.
  pose proof (get_uVerticesArr Hu Hiu) as Gu.
  unfold gridAt. rewrite get_vertexGrid by lia.
  destruct (gridVertex (vAngleAt vCount iv) (uAngleAt uCount iu))
    as [[x y] z] eqn:E.
  exists x, y, z. eexists. split; [reflexivity |].
  rewrite CreateSurfaceData_wireframe_eq. cbn [Wireframe.uPolylines].
  rewrite get_map, Gv. cbn [option_map]. split; [reflexivity |].
  assert (K : forall b : R, length (Wireframe.sample (vAngleAt vCount iv) b) = 3%nat)
    by reflexivity.
  pose proof (fun c Hc => @get_samples R _
                (fun uRad => Wireframe.sample (vAngleAt vCount iv) uRad)
                _ _ c _ K Gu Hc) as S.
  cbv beta in S. rewrite sample_exact, E in S.
  replace (3 * iu)%Z with (3 * iu + 0)%Z at 1 by lia.
  rewrite !S by lia. repeat split.
Qed.

Lemma wireframe_matches_surface_witness :
  (1 <= 4)%Z /\ (1 <= 2)%Z /\ (0 <= 1 <= 2)%Z /\ (0 <= 3 <= 4)%Z /\
  exists (x y z : R) (up : list R),
    gridAt 4 2 1 3 = Some (x, y, z) /\
    get (Wireframe.uPolylines (Wireframe.CreateSurfaceData 4 2)) 1 = Some up /\
    get up (3 * 3) = Some x /\
    get up (3 * 3 + 1) = Some y /\
    get up (3 * 3 + 2) = Some z.
Proof.
  split; [lia |]. split; [lia |]. split; [lia |]. split; [lia |].
  apply (@wireframe_matches_surface 4 2 1 3); lia.
Defined.

End WireframeExact.

(** ** Flat shading, vertex by vertex *)

Section FlatLayout.

Context {num : Type} {NUM : Number num}.

Lemma Forall2_nth_error_l (A B : Type) (P : A -> B -> Prop)
    (l : list A) (l' : list B) (n : nat) (x : A) :
  Forall2 P l l' -> nth_error l n = Some x ->
  exists y, nth_error l' n = Some y /\ P x y.
Proof.
  intros F. revert n. induction F as [| a b l l' H F IH]; intros n E.
  - destruct n; discriminate.
  - destruct n as [| n]; cbn in *.
    + injection E as <-. eauto.
    + now apply IH.
Qed.

Lemma chunks_of_three (uCount vCount : Z) (fs : list triangle)
    (chunks : list (list (FlatVertex num))) :
  Forall2 (flatTriangleOf uCount vCount) fs chunks ->
  forall c, In c chunks -> length c = 3%nat.
Proof.
  induction 1 as [| [[iA iB] iC] chunk fs chunks H _ IH]; intros c Hc.
  - destruct Hc.
  - destruct Hc as [<- | Hc]; [| now apply IH].
    destruct H as [fa [fb [fc [n [t [-> _]]]]]]. reflexivity.
Qed.

Lemma get_concat_chunks (chunks : list (list (FlatVertex num))) (t j : Z)
    (chunk : list (FlatVertex num)) :
  (forall c, In c chunks -> length c = 3%nat) ->
  get chunks t = Some chunk -> (0 <= j < 3)%Z ->
  get (concat chunks) (3 * t + j) = get chunk j.
Proof.
  intros K G Hj. apply get_Some in G. destruct G as [P G].
  unfold get. destruct (Z.ltb_spec (3 * t + j) 0); [lia |].
  destruct (Z.ltb_spec j 0); [lia |].
  replace (Z.to_nat (3 * t + j)) with (3 * Z.to_nat t + Z.to_nat j)%nat by lia.
  rewrite <- (map_id chunks) at 1. rewrite <- flat_map_concat_map.
  apply (@nth_error_flat_map_const _ _ (fun c => c) 3%nat chunks K _ _ _ G). lia.
Qed.

Lemma get3_packed3 (f g h : FlatVertex num -> num) (fvs : list (FlatVertex num))
    (k : Z) (fv : FlatVertex num) :
  get fvs k = Some fv ->
  get3 (packed3 f g h fvs) k = Some (fround (f fv), fround (g fv), fround (h fv)).
Proof.
  intros G. apply get_Some in G. destruct G as [P G].
  assert (E : forall j : nat, (j < 3)%nat ->
            nth_error (packed3 f g h fvs) (3 * Z.to_nat k + j)
            = nth_error [fround (f fv); fround (g fv); fround (h fv)] j).
  { intros j Hj. unfold packed3.
    apply (@nth_error_flat_map_const _ _
             (fun fv => [fround (f fv); fround (g fv); fround (h fv)])
             3%nat fvs (fun _ _ => eq_refl) _ _ _ G Hj). }
  unfold get3, get.
  destruct (Z.ltb_spec (3 * k) 0); [lia |].
  destruct (Z.ltb_spec (3 * k + 1) 0); [lia |].
  destruct (Z.ltb_spec (3 * k + 2) 0); [lia |].
  replace (Z.to_nat (3 * k)) with (3 * Z.to_nat k + 0)%nat by lia.
  replace (Z.to_nat (3 * k + 1)) with (3 * Z.to_nat k + 1)%nat by lia.
  replace (Z.to_nat (3 * k + 2)) with (3 * Z.to_nat k + 2)%nat by lia.
  rewrite !E by lia. reflexivity.
Qed.

(** X16.  Output vertices [3t], [3t+1], [3t+2] belong to triangle [t] of
    the face list: their positions are the lattice points of its three
    corners, in corner order, and the three carry the same normal and the
    same tangent. *)
Theorem flat_shading_layout (uCount vCount t iA iB iC : Z) :
  get (faces uCount vCount) t = Some (iA, iB, iC) ->
  exists (b : SurfaceBuffers num) (pA pB pC n tg : vec3 num),
    CreateSurfaceData uCount vCount = Some b /\
    get (flat (vertexGrid uCount vCount)) iA = Some pA /\
    get (flat (vertexGrid uCount vCount)) iB = Some pB /\
    get (flat (vertexGrid uCount vCount)) iC = Some pC /\
    get3 (positions b) (3 * t) = Some (fround3 pA) /\
    get3 (positions b) (3 * t + 1) = Some (fround3 pB) /\
    get3 (positions b) (3 * t + 2) = Some (fround3 pC) /\
    (forall j, (0 <= j < 3)%Z ->
       get3 (normals b) (3 * t + j) = Some (fround3 n) /\
       get3 (tangents b) (3 * t + j) = Some (fround3 tg)).
Proof.
  intros G.
  destruct (CreateSurfaceData_ok (num := num) uCount vCount) as [chunks [E T]].
  pose proof (chunks_of_three T) as K.
  pose proof G as G'. apply get_Some in G'. destruct G' as [P G'].
  destruct (@Forall2_nth_error_l _ _ _ _ _ _ _ T G') as [chunk [Gc H]].
  destruct H as [fa [fb [fc [n [tg [-> [HA [HB HC]]]]]]]].
  assert (Gc' : get chunks t = Some [fa; fb; fc])
    by (apply get_Some; split; [exact P | exact Gc]).
  pose proof (fun j Hj => @get_concat_chunks chunks t j _ K Gc' Hj) as C.
  assert (C0 : get (concat chunks) (3 * t) = Some fa)
    by (replace (3 * t)%Z with (3 * t + 0)%Z by lia; now rewrite C by lia).
  assert (C1 : get (concat chunks) (3 * t + 1) = Some fb) by now rewrite C by lia.
  assert (C2 : get (concat chunks) (3 * t + 2) = Some fc) by now rewrite C by lia.
  destruct HA as [PA [_ [NA TA]]], HB as [PB [_ [NB TB]]], HC as [PC [_ [NC TC]]].
  eexists. exists (fv_x fa, fv_y fa, fv_z fa), (fv_x fb, fv_y fb, fv_z fb),
                  (fv_x fc, fv_y fc, fv_z fc), n, tg.
  split; [exact E |]. cbn [positions normals tangents].
  split; [exact PA |]. split; [exact PB |]. split; [exact PC |].
  rewrite (@get3_packed3 _ _ _ _ _ _ C0), (@get3_packed3 _ _ _ _ _ _ C1),
          (@get3_packed3 _ _ _ _ _ _ C2).
  do 3 (split; [reflexivity |]).
  intros j Hj.
  assert (J : (j = 0 \/ j = 1 \/ j = 2)%Z) by lia.
  destruct J as [-> | [-> | ->]]; rewrite ?Z.add_0_r;
    [do 2 rewrite (@get3_packed3 _ _ _ _ _ _ C0); rewrite <- NA, <- TA
    |do 2 rewrite (@get3_packed3 _ _ _ _ _ _ C1); rewrite <- NB, <- TB
    |do 2 rewrite (@get3_packed3 _ _ _ _ _ _ C2); rewrite <- NC, <- TC];
    split; reflexivity.
Qed.

End FlatLayout.

Lemma flat_shading_layout_witness :
  get (faces 4 2) 3 = Some (2, 6, 7)%Z /\
  exists (b : SurfaceBuffers R) (pA pB pC n tg : R * R * R),
    CreateSurfaceData 4 2 = Some b /\
    get (flat (vertexGrid 4 2)) 2 = Some pA /\
    get (flat (vertexGrid 4 2)) 6 = Some pB /\
    get (flat (vertexGrid 4 2)) 7 = Some pC /\
    get3 (positions b) (3 * 3) = Some (fround3 pA) /\
    get3 (positions b) (3 * 3 + 1) = Some (fround3 pB) /\
    get3 (positions b) (3 * 3 + 2) = Some (fround3 pC) /\
    (forall j, (0 <= j < 3)%Z ->
       get3 (normals b) (3 * 3 + j) = Some (fround3 n) /\
       get3 (tangents b) (3 * 3 + j) = Some (fround3 tg)).
Proof.
  split; [reflexivity |].
  apply (@flat_shading_layout R RNumber 4 2 3 2 6 7). reflexivity.
Defined.



(** ** The coarsest mesh *)

Section SingleColumn.

Local Open Scope R_scope.

Lemma triangleArea_return (p0 p1 : R * R * R) : triangleArea p0 p1 p0 = 0.
Proof.
  destruct p0 as [[x0 y0] z0], p1 as [[x1 y1] z1].
  unfold triangleArea, m4_cross, m4_subtractVectors.
  cbn [add sub mul RNumber].
  replace ((y1 - y0) * (z0 - z0) - (z1 - z0) * (y0 - y0)) with 0 by ring.
  replace ((z1 - z0) * (x0 - x0) - (x1 - x0) * (z0 - z0)) with 0 by ring.
  replace ((x1 - x0) * (y0 - y0) - (y1 - y0) * (x0 - x0)) with 0 by ring.
  rewrite m4_length_zero. lra.
Qed.

Lemma flat_single_column (vCount iv iu : Z) :
  (1 <= vCount)%Z -> (0 <= iv <= vCount)%Z -> (0 <= iu <= 1)%Z ->
  get (flat (vertexGrid 1 vCount)) (indexOf 1 iv iu)
  = Some (surfacePoint 0 (vAngleAt vCount iv)).
Proof.
  intros Hv Hiv Hiu. rewrite get_flat_vertexGrid by lia.
  rewrite gridVertex_exact, uAngleAt_exact by lia.
  assert (J : iu = 0%Z \/ iu = 1%Z) by lia. destruct J as [-> | ->].
  - do 2 f_equal. lra.
  - replace (2 * PI * (1 / 1)) with (2 * PI) by lra.
    now rewrite surfacePoint_seam.
Qed.

Lemma single_column_faces (vCount iA iB iC : Z) :
  (1 <= vCount)%Z ->
  In (iA, iB, iC) (faces 1 vCount) ->
  exists pA pB pC : R * R * R,
    get (flat (vertexGrid 1 vCount)) iA = Some pA /\
    get (flat (vertexGrid 1 vCount)) iB = Some pB /\
    get (flat (vertexGrid 1 vCount)) iC = Some pC /\
    triangleArea pA pB pC = 0.
Proof.
  intros Hv H. apply In_faces in H. destruct H as [iv [iu [Hiv [Hiu H]]]].
  assert (iu = 0%Z) by lia. subst iu.
  unfold cellTriangles in H. cbv zeta in H.
  destruct H as [H | [H | []]]; injection H as <- <- <-;
    do 3 eexists;
    (split; [apply flat_single_column; lia |]);
    (split; [apply flat_single_column; lia |]);
    (split; [apply flat_single_column; lia |]).
  - apply triangleArea_return.
  - apply triangleArea_coincident.
Qed.

Lemma accumFaces_all_degenerate (vertices : list (R * R * R)) (fs : list triangle) :
  (forall iA iB iC, In (iA, iB, iC) fs ->
     exists pA pB pC,
       get vertices iA = Some pA /\ get vertices iB = Some pB /\
       get vertices iC = Some pC /\ triangleArea pA pB pC = 0) ->
  forall accum, length accum = length vertices ->
    fold_left (accumFace vertices) fs (Some accum) = Some accum.
Proof.
  induction fs as [| [[iA iB] iC] fs IH]; intros H accum L; [reflexivity |].
  destruct (H iA iB iC (or_introl eq_refl)) as [pA [pB [pC [GA [GB [GC Z]]]]]].
  cbn [fold_left].
  rewrite (@accumFace_degenerate vertices accum iA iB iC pA pB pC L GA GB GC)
    by (rewrite Z; lra).
  apply IH; [| exact L]. intros a b c Hin. apply H. now right.
Qed.

(** X17.  With a single column ([uCount = 1]) the two columns of the grid
    are the same points, every triangle has two equal corners and area 0,
    each gets the placeholder normal with weight 0, and the accumulated
    normal of every lattice vertex is the zero vector. *)
Theorem single_column_mesh_is_degenerate (vCount : Z) :
  (1 <= vCount)%Z ->
  (forall iA iB iC, In (iA, iB, iC) (faces 1 vCount) ->
     exists pA pB pC : R * R * R,
       get (flat (vertexGrid 1 vCount)) iA = Some pA /\
       get (flat (vertexGrid 1 vCount)) iB = Some pB /\
       get (flat (vertexGrid 1 vCount)) iC = Some pC /\
       triangleArea pA pB pC = 0 /\
       computeFaceNormalAndArea pA pB pC = ((0, 0, 1), 0)) /\
  accumNormals (flat (vertexGrid 1 vCount)) (faces 1 vCount)
  = Some (map (fun _ => (0, 0, 0)) (flat (vertexGrid (num := R) 1 vCount))).
Proof.
  intros Hv. split.
  - intros iA iB iC H.
    destruct (single_column_faces _ _ _ Hv H) as [pA [pB [pC [GA [GB [GC Z]]]]]].
    exists pA, pB, pC. repeat (split; [assumption |]).
    destruct (computeFaceNormalAndArea_cases pA pB pC) as [[_ E] | [N _]];
      [exact E | rewrite Z in N; lra].
  - unfold accumNormals. apply accumFaces_all_degenerate.
    + intros iA iB iC H. now apply single_column_faces.
    + apply length_map.
Qed.

Lemma single_column_mesh_is_degenerate_witness :
  (1 <= 3)%Z /\
  accumNormals (flat (vertexGrid 1 3)) (faces 1 3)
  = Some (map (fun _ => (0, 0, 0)) (flat (vertexGrid (num := R) 1 3))).
Proof.
  split; [lia |].
  apply (@single_column_mesh_is_degenerate 3). lia.
Defined.

End SingleColumn.
